(** * VibeCoding.SOP: the plan requester and the planner tool

    A shallow embedding of [src/services/geminiService.ts] and of the
    state handling of [src/components/PlannerTool.tsx], together with the
    part of the JavaScript runtime they rely on ([String.prototype.trim],
    [ToBoolean], [JSON.parse]).

    - JavaScript strings are sequences of UTF-16 code units: [JSString].
    - JavaScript values produced by [JSON.parse] are the inductive [JSValue].
    - Effects of [generateExecutionPlan] (console output, the one call to the
      generation service, exceptions) live in the monad [Eff].
    - The component [PlannerTool] is a transition system over its four
      [useState] cells and the requests it is waiting for. *)

From Stdlib Require Import List ZArith NArith Lia Bool Ascii String.
Import ListNotations.

Set Implicit Arguments.
Set Warnings "-register-all".

(* ================================================================== *)
(** ** JavaScript strings *)
(* ================================================================== *)

(** A JavaScript string is a finite sequence of 16-bit code units. *)
Definition JSString : Type := list N.

(** A source literal that only holds ASCII characters, as code units. *)
Definition js (s : string) : JSString :=
  map N_of_ascii (list_ascii_of_string s).

(** The code unit of an ASCII character. *)
Definition cu (a : ascii) : N := N_of_ascii a.

(** The double quote U+0022 and the line feed U+000A. *)
Definition dquote : N := 34%N.
Definition newline : N := 10%N.

(** [===] on strings. *)
Fixpoint jsstring_eqb (a b : JSString) : bool :=
  match a, b with
  | [], [] => true
  | x :: a', y :: b' => (x =? y)%N && jsstring_eqb a' b'
  | _, _ => false
  end.

(** [ToBoolean] of a string: only the empty string is falsy. *)
Definition string_truthy (s : JSString) : bool :=
  match s with
  | [] => false
  | _ :: _ => true
  end.

(** [WhiteSpace] and [LineTerminator] of ECMAScript, the code units that
    [String.prototype.trim] removes: TAB, LF, VT, FF, CR, SP, NBSP, the
    Unicode space separators (category Zs), LS, PS and the byte order mark. *)
Definition is_js_whitespace (c : N) : bool :=
  ((9 <=? c) && (c <=? 13) ||
   (c =? 32) || (c =? 160) || (c =? 5760) ||
   (8192 <=? c) && (c <=? 8202) ||
   (c =? 8232) || (c =? 8233) || (c =? 8239) || (c =? 8287) ||
   (c =? 12288) || (c =? 65279))%N.

Fixpoint trimStart (s : JSString) : JSString :=
  match s with
  | [] => []
  | c :: r => if is_js_whitespace c then trimStart r else s
  end.

Definition trimEnd (s : JSString) : JSString :=
  rev (trimStart (rev s)).

(** [String.prototype.trim]. *)
Definition trim (s : JSString) : JSString := trimEnd (trimStart s).

(* ================================================================== *)
(** ** JavaScript values that [JSON.parse] builds *)
(* ================================================================== *)

(** A JSON number before it is rounded to a binary64 value:
    [(-1)^neg * mant * 10^exp10].  The sign is kept because [-0] is a
    value of its own. *)
Record JSNumber : Type := mkNumber {
  neg : bool;
  mant : N;
  exp10 : Z
}.

Inductive JSValue : Type :=
| JNull
| JBool (b : bool)
| JNumber (n : JSNumber)
| JString (s : JSString)
| JArray (elems : list JSValue)
| JObject (props : list (JSString * JSValue)).

(** A decimal rounds to [+0] or [-0] exactly when its magnitude is at most
    [2^-1075], half of the least positive binary64 value (ties go to the
    even neighbour, which is zero). *)
Definition number_is_zero (n : JSNumber) : bool :=
  if (mant n =? 0)%N then true
  else if (0 <=? exp10 n)%Z then false
  else (Z.of_N (mant n) * 2 ^ 1075 <=? 10 ^ (- exp10 n))%Z.

(** [ToBoolean]. A number read by [JSON.parse] is never NaN. *)
Definition truthy (v : JSValue) : bool :=
  match v with
  | JNull => false
  | JBool b => b
  | JNumber n => negb (number_is_zero n)
  | JString s => string_truthy s
  | JArray _ => true
  | JObject _ => true
  end.

Definition is_null (v : JSValue) : bool :=
  match v with
  | JNull => true
  | _ => false
  end.

(** Own properties of an object, in creation order.  (JavaScript lists
    the keys that are array indices first; nothing below depends on the
    order in which keys are listed.) *)
Fixpoint get_prop (k : JSString) (o : list (JSString * JSValue)) : option JSValue :=
  match o with
  | [] => None
  | (k', v) :: r => if jsstring_eqb k k' then Some v else get_prop k r
  end.

(** [CreateDataProperty]: a key that is already there keeps its place and
    takes the new value, a new key goes to the end. *)
Fixpoint set_prop (k : JSString) (v : JSValue) (o : list (JSString * JSValue))
  : list (JSString * JSValue) :=
  match o with
  | [] => [(k, v)]
  | (k', v') :: r =>
      if jsstring_eqb k k' then (k', v) :: r else (k', v') :: set_prop k v r
  end.

(* ================================================================== *)
(** ** [JSON.parse] *)
(* ================================================================== *)

Module JSON.

(** What a parsing function gives back: a value with the input left, a
    syntax error, or that it was given too little fuel. *)
Inductive PResult (A : Type) : Type :=
| POk (a : A) (rest : JSString)
| PSyntaxError
| POutOfFuel.
Arguments PSyntaxError {A}.
Arguments POutOfFuel {A}.

(** JSON white space: TAB, LF, CR and SP. *)
Definition is_ws (c : N) : bool :=
  ((c =? 9) || (c =? 10) || (c =? 13) || (c =? 32))%N.

Fixpoint skip_ws (s : JSString) : JSString :=
  match s with
  | [] => []
  | c :: r => if is_ws c then skip_ws r else s
  end.

Definition is_digit (c : N) : bool := ((48 <=? c) && (c <=? 57))%N.

Definition hex_value (c : N) : option N :=
  if ((48 <=? c) && (c <=? 57))%N then Some (c - 48)%N
  else if ((65 <=? c) && (c <=? 70))%N then Some (c - 55)%N
  else if ((97 <=? c) && (c <=? 102))%N then Some (c - 87)%N
  else None.

(** The character an escape letter stands for. *)
Definition simple_escape (c : N) : option N :=
  if (c =? dquote)%N then Some dquote
  else if (c =? cu "\")%N then Some (cu "\")
  else if (c =? cu "/")%N then Some (cu "/")
  else if (c =? cu "b")%N then Some 8%N
  else if (c =? cu "f")%N then Some 12%N
  else if (c =? cu "n")%N then Some 10%N
  else if (c =? cu "r")%N then Some 13%N
  else if (c =? cu "t")%N then Some 9%N
  else None.

(** The characters of a string up to its closing quote; the opening quote
    has been read. *)
Fixpoint parse_chars (s : JSString) : option (JSString * JSString) :=
  match s with
  | [] => None
  | c :: r =>
      if (c =? dquote)%N then Some ([], r)
      else if (c =? cu "\")%N then
        match r with
        | [] => None
        | e :: r1 =>
            if (e =? cu "u")%N then
              match r1 with
              | h1 :: h2 :: h3 :: h4 :: r2 =>
                  match hex_value h1, hex_value h2, hex_value h3, hex_value h4 with
                  | Some a, Some b, Some c', Some d =>
                      match parse_chars r2 with
                      | Some (cs, rest) =>
                          Some ((a * 4096 + b * 256 + c' * 16 + d)%N :: cs, rest)
                      | None => None
                      end
                  | _, _, _, _ => None
                  end
              | _ => None
              end
            else
              match simple_escape e with
              | Some x =>
                  match parse_chars r1 with
                  | Some (cs, rest) => Some (x :: cs, rest)
                  | None => None
                  end
              | None => None
              end
        end
      else if (c <? 32)%N then None
      else
        match parse_chars r with
        | Some (cs, rest) => Some (c :: cs, rest)
        | None => None
        end
  end.

(** A run of digits: its value continued from [acc], how many there were,
    and the input left. *)
Fixpoint parse_digits (s : JSString) (acc : N) (count : nat) : N * nat * JSString :=
  match s with
  | c :: r =>
      if is_digit c then parse_digits r (acc * 10 + (c - 48))%N (S count)
      else (acc, count, s)
  | [] => (acc, count, s)
  end.

(** The integer part: a single [0], or a digit from 1 to 9 and more digits. *)
Definition parse_int (s : JSString) : option (N * JSString) :=
  match s with
  | c :: r =>
      if (c =? cu "0")%N then Some (0%N, r)
      else if is_digit c then
        let '(m, _, rest) := parse_digits r (c - 48)%N 0 in Some (m, rest)
      else None
  | [] => None
  end.

(** The fraction, if there is one: at least one digit after the point. *)
Definition parse_frac (m : N) (s : JSString) : option (N * nat * JSString) :=
  match s with
  | c :: r =>
      if (c =? cu ".")%N then
        match parse_digits r m 0 with
        | (_, O, _) => None
        | (m', S k, rest) => Some (m', S k, rest)
        end
      else Some (m, O, s)
  | [] => Some (m, O, s)
  end.

(** The exponent, if there is one: [e] or [E], a sign or none, digits. *)
Definition parse_exp (s : JSString) : option (Z * JSString) :=
  match s with
  | c :: r =>
      if ((c =? cu "e") || (c =? cu "E"))%N then
        let '(sign, r1) :=
          match r with
          | c1 :: r' =>
              if (c1 =? cu "-")%N then (true, r')
              else if (c1 =? cu "+")%N then (false, r')
              else (false, r)
          | [] => (false, r)
          end in
        match parse_digits r1 0%N 0 with
        | (_, O, _) => None
        | (e, S _, rest) =>
            Some (if sign then (- Z.of_N e)%Z else Z.of_N e, rest)
        end
      else Some (0%Z, s)
  | [] => Some (0%Z, s)
  end.

Definition parse_number (s : JSString) : option (JSNumber * JSString) :=
  let '(sg, s1) :=
    match s with
    | c :: r => if (c =? cu "-")%N then (true, r) else (false, s)
    | [] => (false, s)
    end in
  match parse_int s1 with
  | None => None
  | Some (m, s2) =>
      match parse_frac m s2 with
      | None => None
      | Some (m', k, s3) =>
          match parse_exp s3 with
          | None => None
          | Some (e, s4) => Some (mkNumber sg m' (e - Z.of_nat k), s4)
          end
      end
  end.

(** [strip_prefix p s] is what follows [p] in [s]. *)
Fixpoint strip_prefix (p s : JSString) : option JSString :=
  match p, s with
  | [], _ => Some s
  | a :: p', b :: s' => if (a =? b)%N then strip_prefix p' s' else None
  | _ :: _, [] => None
  end.

Definition parse_literal (word : string) (v : JSValue) (s : JSString)
  : PResult JSValue :=
  match strip_prefix (js word) s with
  | Some rest => POk v rest
  | None => PSyntaxError
  end.

(** The recursive descent over values.  Every call takes one unit of
    fuel; [parse_elements] reads the elements of an array after its first
    bracket, [parse_members] the members of an object after its first
    brace (both know the array or object is not empty). *)
Fixpoint parse_value (fuel : nat) (s : JSString) : PResult JSValue :=
  match fuel with
  | O => POutOfFuel
  | S fuel' =>
      match skip_ws s with
      | [] => PSyntaxError
      | c :: r =>
          if (c =? cu "{")%N then
            match skip_ws r with
            | c1 :: r1 =>
                if (c1 =? cu "}")%N then POk (JObject []) r1
                else parse_members fuel' (c1 :: r1) []
            | [] => PSyntaxError
            end
          else if (c =? cu "[")%N then
            match skip_ws r with
            | c1 :: r1 =>
                if (c1 =? cu "]")%N then POk (JArray []) r1
                else parse_elements fuel' (c1 :: r1) []
            | [] => PSyntaxError
            end
          else if (c =? dquote)%N then
            match parse_chars r with
            | Some (str, rest) => POk (JString str) rest
            | None => PSyntaxError
            end
          else if (c =? cu "t")%N then parse_literal "true" (JBool true) (c :: r)
          else if (c =? cu "f")%N then parse_literal "false" (JBool false) (c :: r)
          else if (c =? cu "n")%N then parse_literal "null" JNull (c :: r)
          else
            match parse_number (c :: r) with
            | Some (n, rest) => POk (JNumber n) rest
            | None => PSyntaxError
            end
      end
  end

with parse_elements (fuel : nat) (s : JSString) (acc : list JSValue)
  : PResult JSValue :=
  match fuel with
  | O => POutOfFuel
  | S fuel' =>
      match parse_value fuel' s with
      | POk v rest =>
          match skip_ws rest with
          | c :: r =>
              if (c =? cu ",")%N then parse_elements fuel' r (acc ++ [v])
              else if (c =? cu "]")%N then POk (JArray (acc ++ [v])) r
              else PSyntaxError
          | [] => PSyntaxError
          end
      | PSyntaxError => PSyntaxError
      | POutOfFuel => POutOfFuel
      end
  end

with parse_members (fuel : nat) (s : JSString) (acc : list (JSString * JSValue))
  : PResult JSValue :=
  match fuel with
  | O => POutOfFuel
  | S fuel' =>
      match skip_ws s with
      | c :: r =>
          if (c =? dquote)%N then
            match parse_chars r with
            | Some (key, r1) =>
                match skip_ws r1 with
                | c1 :: r2 =>
                    if (c1 =? cu ":")%N then
                      match parse_value fuel' r2 with
                      | POk v rest =>
                          match skip_ws rest with
                          | c2 :: r3 =>
                              if (c2 =? cu ",")%N then
                                parse_members fuel' r3 (set_prop key v acc)
                              else if (c2 =? cu "}")%N then
                                POk (JObject (set_prop key v acc)) r3
                              else PSyntaxError
                          | [] => PSyntaxError
                          end
                      | PSyntaxError => PSyntaxError
                      | POutOfFuel => POutOfFuel
                      end
                    else PSyntaxError
                | [] => PSyntaxError
                end
            | None => PSyntaxError
            end
          else PSyntaxError
      | [] => PSyntaxError
      end
  end.

(** Fuel that is enough for a text: two units for each code unit and one. *)
Definition fuel_for (text : JSString) : nat := S (2 * List.length text).

(** [JSON.parse(text)]: the value, or [None] when a [SyntaxError] is
    thrown.  The whole text has to be one value between white space. *)
Definition parse (text : JSString) : option JSValue :=
  match parse_value (fuel_for text) text with
  | POk v rest =>
      match skip_ws rest with
      | [] => Some v
      | _ :: _ => None
      end
  | PSyntaxError => None
  | POutOfFuel => None
  end.

End JSON.

(* ================================================================== *)
(** ** The generation service, seen from [geminiService.ts] *)
(* ================================================================== *)

(** [lang: 'en' | 'zh']. *)
Inductive Lang : Type := en | zh.

(** The members of the SDK's [Type] enumeration that the source uses. *)
Inductive SchemaType : Type := STRING | ARRAY | OBJECT.

(** A schema object literal: [type] always, the other fields when the
    literal has them. *)
Inductive Schema : Type :=
| mkSchema (type : SchemaType)
           (properties : option (list (JSString * Schema)))
           (items : option Schema)
           (required : option (list JSString)).

Definition schema_type (s : Schema) : SchemaType :=
  match s with mkSchema t _ _ _ => t end.
Definition schema_properties (s : Schema) : option (list (JSString * Schema)) :=
  match s with mkSchema _ p _ _ => p end.
Definition schema_items (s : Schema) : option Schema :=
  match s with mkSchema _ _ i _ => i end.
Definition schema_required (s : Schema) : option (list JSString) :=
  match s with mkSchema _ _ _ r => r end.

Record GenerationConfig : Type := mkConfig {
  responseMimeType : JSString;
  responseSchema : Schema
}.

(** The argument of [ai.models.generateContent]. *)
Record GenerateContentParameters : Type := mkParameters {
  model : JSString;
  contents : JSString;
  config : GenerationConfig
}.

(** What the source reads of a response: the getter [text], a string or
    [undefined]. *)
Record GenerateContentResponse : Type := mkResponse {
  text : option JSString
}.

(** What can be thrown inside [generateExecutionPlan]: the [SyntaxError] of
    [JSON.parse], or whatever the call to the service is rejected with. *)
Inductive Thrown : Type :=
| SyntaxError
| RemoteFault (reason : JSString).

(** How the awaited call to the service ends. *)
Inductive Outcome : Type :=
| Resolve (response : GenerateContentResponse)
| Reject (e : Thrown).

(** The arguments of a [console.error]. *)
Inductive LogArg : Type :=
| LString (s : JSString)
| LThrown (e : Thrown).

(** What [generateExecutionPlan] does to the world, in the order it
    happens. *)
Inductive Event : Type :=
| ConsoleError (args : list LogArg)
| NetworkCall (request : GenerateContentParameters).

(** The process: the environment variable [API_KEY] as it was when the
    module was loaded, and the generation service.  The service answers a
    request knowing the requests that came before, so that it need not
    answer the same request twice in the same way. *)
Record Process : Type := mkProcess {
  env_API_KEY : option JSString;
  service : list GenerateContentParameters -> GenerateContentParameters -> Outcome
}.

(** [const apiKey = process.env.API_KEY || '']. *)
Definition apiKey (p : Process) : JSString :=
  match env_API_KEY p with
  | Some k => if string_truthy k then k else []
  | None => []
  end.

Definition is_network_call (e : Event) : bool :=
  match e with
  | NetworkCall _ => true
  | ConsoleError _ => false
  end.

Definition is_console_error (e : Event) : bool :=
  match e with
  | ConsoleError _ => true
  | NetworkCall _ => false
  end.

(** The requests of a trace, oldest first. *)
Fixpoint requests_of (tr : list Event) : list GenerateContentParameters :=
  match tr with
  | [] => []
  | NetworkCall r :: tr' => r :: requests_of tr'
  | ConsoleError _ :: tr' => requests_of tr'
  end.

(** The call count of the transport and the number of diagnostic lines. *)
Definition call_count (tr : list Event) : nat := List.length (requests_of tr).
Definition log_count (tr : list Event) : nat :=
  List.length (filter is_console_error tr).

(* ================================================================== *)
(** ** The effect monad *)
(* ================================================================== *)

(** A computation ends normally with a value or abruptly with a thrown
    value. *)
Inductive Completion (A : Type) : Type :=
| Normal (a : A)
| Throw (e : Thrown).
Arguments Throw {A} e.

(** A computation reads the process and extends the trace of events. *)
Definition Eff (A : Type) : Type :=
  Process -> list Event -> Completion A * list Event.

Definition ret {A : Type} (a : A) : Eff A :=
  fun _ tr => (Normal a, tr).

Definition throw {A : Type} (e : Thrown) : Eff A :=
  fun _ tr => (Throw e, tr).

Definition bind {A B : Type} (m : Eff A) (k : A -> Eff B) : Eff B :=
  fun p tr =>
    match m p tr with
    | (Normal a, tr') => k a p tr'
    | (Throw e, tr') => (Throw e, tr')
    end.

(** [try { body } catch (error) { handler }]. *)
Definition try_catch {A : Type} (body : Eff A) (handler : Thrown -> Eff A) : Eff A :=
  fun p tr =>
    match body p tr with
    | (Normal a, tr') => (Normal a, tr')
    | (Throw e, tr') => handler e p tr'
    end.

Declare Scope eff_scope.
Delimit Scope eff_scope with eff.
Notation "x <- m ;; k" := (bind m (fun x => k))
  (at level 61, m at next level, right associativity) : eff_scope.
Notation "m ;; k" := (bind m (fun _ => k))
  (at level 61, right associativity) : eff_scope.

(** [console.error(...args)]. *)
Definition console_error (args : list LogArg) : Eff unit :=
  fun _ tr => (Normal tt, tr ++ [ConsoleError args]).

(** [await ai.models.generateContent(request)]: one call to the service,
    which resolves with a response or is rejected. *)
Definition generateContent (request : GenerateContentParameters)
  : Eff GenerateContentResponse :=
  fun p tr =>
    match service p (requests_of tr) request with
    | Resolve response => (Normal response, tr ++ [NetworkCall request])
    | Reject e => (Throw e, tr ++ [NetworkCall request])
    end.

(** [JSON.parse(text)] as a computation: a value, or a thrown
    [SyntaxError]. *)
Definition JSON_parse (text : JSString) : Eff JSValue :=
  match JSON.parse text with
  | Some v => ret v
  | None => throw SyntaxError
  end.

(* ================================================================== *)
(** ** [src/services/geminiService.ts] *)
(* ================================================================== *)

Definition langInstruction (lang : Lang) : JSString :=
  match lang with
  | zh => js "OUTPUT MUST BE IN CHINESE (Simplified). Translate titles, strategies, and risks to Chinese."
  | en => js "Output in English."
  end.

(** The template literal of [contents], line by line. *)
Definition prompt (taskDescription : JSString) (lang : Lang) : JSString :=
  js "You are an expert Senior Technical Architect and " ++ dquote :: js "Vibe Coding" ++ dquote :: js " specialist. " ++ newline ::
  js "      Your goal is to break down a complex coding requirement into a strictly phased execution plan to prevent AI confusion and code rot." ++ newline ::
  js "      " ++ newline ::
  js "      User Task: " ++ dquote :: taskDescription ++ dquote :: newline ::
  js "      " ++ newline ::
  js "      " ++ langInstruction lang ++ newline ::
  newline ::
  js "      Provide a JSON response with a list of steps. For each step, include:" ++ newline ::
  js "      - title: A short, action-oriented title." ++ newline ::
  js "      - promptStrategy: Specific advice on what to tell the AI coder in this step (e.g., " ++ dquote :: js "Only generate the interface definitions" ++ dquote :: js ")." ++ newline ::
  js "      - risk: What usually goes wrong here if not careful (e.g., " ++ dquote :: js "AI hallucinates imports" ++ dquote :: js ")." ++ newline ::
  js "      ".

Definition string_schema : Schema := mkSchema STRING None None None.

(** The object literal of [config.responseSchema]. *)
Definition responseSchema_literal : Schema :=
  mkSchema OBJECT
    (Some [(js "steps",
            mkSchema ARRAY None
              (Some (mkSchema OBJECT
                       (Some [(js "title", string_schema);
                              (js "promptStrategy", string_schema);
                              (js "risk", string_schema)])
                       None
                       (Some [js "title"; js "promptStrategy"; js "risk"])))
              None)])
    None
    None.

(** The argument that [generateExecutionPlan] gives to [generateContent]. *)
Definition request_for (taskDescription : JSString) (lang : Lang)
  : GenerateContentParameters :=
  {| model := js "gemini-2.5-flash";
     contents := prompt taskDescription lang;
     config := {| responseMimeType := js "application/json";
                  responseSchema := responseSchema_literal |} |}.

Open Scope eff_scope.

(** [generateExecutionPlan(taskDescription, lang)].  The promise it returns
    is fulfilled with [JSON.parse]'s value or with [null] ([JNull]); a
    [Throw] would be a rejected promise.  The default ['en'] of [lang] is
    left to the caller, and the one caller in the source passes [lang].
    The module has been loaded: [new GoogleGenAI({ apiKey })] has returned
    and has made no call. *)
Definition generateExecutionPlan (taskDescription : JSString) (lang : Lang)
  : Eff JSValue :=
  fun p =>
    (if negb (string_truthy (apiKey p)) then
       console_error [LString (js "API Key is missing")] ;;
       ret JNull
     else
       try_catch
         (response <- generateContent (request_for taskDescription lang) ;;
          match text response with
          | None => ret JNull
          | Some t => if negb (string_truthy t) then ret JNull else JSON_parse t
          end)
         (fun error =>
            console_error [LString (js "Error generating plan:"); LThrown error] ;;
            ret JNull)) p.

Close Scope eff_scope.

(** The events that one call adds to the trace [tr]. *)
Definition emitted (taskDescription : JSString) (lang : Lang)
           (p : Process) (tr : list Event) : list Event :=
  skipn (List.length tr) (snd (generateExecutionPlan taskDescription lang p tr)).

(** Calls one after the other in one process. *)
Fixpoint run_calls (calls : list (JSString * Lang)) (p : Process) (tr : list Event)
  : list (Completion JSValue) * list Event :=
  match calls with
  | [] => ([], tr)
  | (task, lang) :: rest =>
      let '(r, tr1) := generateExecutionPlan task lang p tr in
      let '(rs, tr2) := run_calls rest p tr1 in
      (r :: rs, tr2)
  end.

(** *** The plan a value is read as

    [PlannerResponse] of [src/types.ts]: what the caller reads of the value
    it is given. *)
Record PlanStep : Type := mkStep {
  title : JSString;
  promptStrategy : JSString;
  risk : JSString
}.

Record PlannerResponse : Type := mkPlan {
  steps : list PlanStep
}.

Definition get_string (k : string) (o : list (JSString * JSValue)) : option JSString :=
  match get_prop (js k) o with
  | Some (JString s) => Some s
  | _ => None
  end.

(** A step object of the schema: the three fields are there and are
    strings. *)
Definition as_step (v : JSValue) : option PlanStep :=
  match v with
  | JObject o =>
      match get_string "title" o, get_string "promptStrategy" o, get_string "risk" o with
      | Some a, Some b, Some c => Some (mkStep a b c)
      | _, _, _ => None
      end
  | _ => None
  end.

Fixpoint as_steps (vs : list JSValue) : option (list PlanStep) :=
  match vs with
  | [] => Some []
  | v :: vs' =>
      match as_step v, as_steps vs' with
      | Some s, Some ss => Some (s :: ss)
      | _, _ => None
      end
  end.

(** A value that conforms to the response schema, read as a plan. *)
Definition as_plan (v : JSValue) : option PlannerResponse :=
  match v with
  | JObject o =>
      match get_prop (js "steps") o with
      | Some (JArray vs) =>
          match as_steps vs with
          | Some ss => Some (mkPlan ss)
          | None => None
          end
      | _ => None
      end
  | _ => None
  end.

(* ================================================================== *)
(** ** [src/components/PlannerTool.tsx] *)
(* ================================================================== *)

Module PlannerTool.

(** The four [useState] cells.  [plan] is a value or [null] ([JNull]),
    [error] a string or [null] ([None]). *)
Record State : Type := mkState {
  input : JSString;
  plan : JSValue;
  loading : bool;
  error : option JSString
}.

(** The first render: [useState('')], [useState(null)], [useState(false)],
    [useState(null)]. *)
Definition initial : State :=
  {| input := []; plan := JNull; loading := false; error := None |}.

Definition setInput (v : JSString) (s : State) : State :=
  {| input := v; plan := plan s; loading := loading s; error := error s |}.
Definition setPlan (v : JSValue) (s : State) : State :=
  {| input := input s; plan := v; loading := loading s; error := error s |}.
Definition setLoading (v : bool) (s : State) : State :=
  {| input := input s; plan := plan s; loading := v; error := error s |}.
Definition setError (v : option JSString) (s : State) : State :=
  {| input := input s; plan := plan s; loading := loading s; error := v |}.

(** [t.error], the one entry of the table [t] that the handler uses. *)
Definition t_error (lang : Lang) : JSString :=
  match lang with
  | en => js "Generation failed. Please check your API Key or try again."
  | zh => [29983; 25104; 22833; 36133; 12290; 35831; 26816; 26597]%N
            ++ js " API Key " ++ [25110; 37325; 35797; 12290]%N
  end.

(** A call [generateExecutionPlan(input, lang)] that [handlePlan] is
    waiting for; [lang] also fixes the [t.error] of that render. *)
Record Request : Type := mkRequest {
  req_task : JSString;
  req_lang : Lang
}.

(** [handlePlan] up to its [await]: the state it leaves and the request it
    has started, if it has started one. *)
Definition handlePlan_begin (lang : Lang) (s : State) : State * option Request :=
  if negb (string_truthy (trim (input s))) then (s, None)
  else
    (setPlan JNull (setError None (setLoading true s)),
     Some (mkRequest (input s) lang)).

(** [handlePlan] from its [await] on, given how the awaited promise was
    settled: the [try] block, the [catch] block and the [finally] block. *)
Definition handlePlan_resume (lang : Lang) (settled : Completion JSValue) (s : State)
  : State :=
  let s1 :=
    match settled with
    | Normal result =>
        if truthy result then setPlan result s
        else setError (Some (t_error lang)) s
    | Throw _ => setError (Some (t_error lang)) s
    end in
  setLoading false s1.

(** A whole execution of [handlePlan] when nothing else happens in
    between. *)
Definition handlePlan (lang : Lang) (settled : Completion JSValue) (s : State)
  : State :=
  match handlePlan_begin lang s with
  | (s1, Some _) => handlePlan_resume lang settled s1
  | (s1, None) => s1
  end.

(** [disabled={loading || !input}]. *)
Definition button_disabled (s : State) : bool :=
  loading s || negb (string_truthy (input s)).

(** What is on the screen: [{error && ...}] and [{plan && ...}]. *)
Definition shows_error (s : State) : bool :=
  match error s with
  | Some e => string_truthy e
  | None => false
  end.
Definition shows_plan (s : State) : bool := truthy (plan s).

(** A mounted component: the cells, the [lang] it was last rendered with,
    and the requests whose promise is not settled yet. *)
Record Component : Type := mkComponent {
  cells : State;
  lang_prop : Lang;
  in_flight : list Request
}.

Definition mounted (lang : Lang) : Component :=
  {| cells := initial; lang_prop := lang; in_flight := [] |}.

Definition option_to_list {A : Type} (o : option A) : list A :=
  match o with
  | Some a => [a]
  | None => []
  end.

(** A click on the button of a render that read the cells as they are
    now: it runs [handlePlan] up to its [await]. *)
Definition click (c : Component) : Component :=
  let '(s, started) := handlePlan_begin (lang_prop c) (cells c) in
  {| cells := s;
     lang_prop := lang_prop c;
     in_flight := in_flight c ++ option_to_list started |}.

(** [handlePlan] up to its [await], as the handler of the render that
    read the cells [shown] runs it: [input] is the input that render read,
    and the setters write to the cells as they are now.  [handlePlan_begin]
    is the case of a render that read the cells as they are now. *)
Definition handlePlan_begin_from (shown : State) (lang : Lang) (s : State)
  : State * option Request :=
  if negb (string_truthy (trim (input shown))) then (s, None)
  else
    (setPlan JNull (setError None (setLoading true s)),
     Some (mkRequest (input shown) lang)).

Definition click_from (shown : State) (c : Component) : Component :=
  let '(s, started) := handlePlan_begin_from shown (lang_prop c) (cells c) in
  {| cells := s;
     lang_prop := lang_prop c;
     in_flight := in_flight c ++ option_to_list started |}.

(** A mounted component between two renders: [shown] holds the cells as
    the last render read them, which is what the button on the page and
    the handlers of that render go by; [now] holds the cells as the setters
    have left them since, the [lang] of the last render and the requests
    in flight.  A setter does not render: the component is rendered again
    later, and until then a second event meets the same button and the
    same handlers. *)
Record Mounted : Type := mkMounted {
  shown : State;
  now : Component
}.

Definition first_render (l : Lang) : Mounted :=
  {| shown := initial; now := mounted l |}.

(** A render, with the [lang] the parent gives: it reads the cells. *)
Definition rendered (l : Lang) (m : Mounted) : Mounted :=
  {| shown := cells (now m);
     now := {| cells := cells (now m); lang_prop := l; in_flight := in_flight (now m) |} |}.

(** [onChange] of the textarea. *)
Definition changed (v : JSString) (m : Mounted) : Mounted :=
  {| shown := shown m;
     now := {| cells := setInput v (cells (now m));
               lang_prop := lang_prop (now m);
               in_flight := in_flight (now m) |} |}.

(** [onClick] of the button: the handler of the last render. *)
Definition clicked (m : Mounted) : Mounted :=
  {| shown := shown m; now := click_from (shown m) (now m) |}.

(** The promise of the request [r] is settled and its [handlePlan] goes
    on. *)
Definition resumed (before after : list Request) (r : Request)
           (settled : Completion JSValue) (m : Mounted) : Mounted :=
  {| shown := shown m;
     now := {| cells := handlePlan_resume (req_lang r) settled (cells (now m));
               lang_prop := lang_prop (now m);
               in_flight := before ++ after |} |}.

Inductive Action : Type :=
| Render (l : Lang)
| Change (v : JSString)
| Click
| Settle (before after : list Request) (r : Request) (settled : Completion JSValue).

(** What can happen to a mounted component.  A handler and the
    continuation of an [await] each run to their end before anything else
    happens.  A click needs the button of the last render to be enabled;
    nothing else stands in the way of a click, [handlePlan] itself does
    not look at [loading]. *)
Inductive step : Action -> Mounted -> Mounted -> Prop :=
| step_render (m : Mounted) (l : Lang) :
    step (Render l) m (rendered l m)
| step_change (m : Mounted) (v : JSString) :
    step (Change v) m (changed v m)
| step_click (m : Mounted) :
    button_disabled (shown m) = false ->
    step Click m (clicked m)
| step_settle (m : Mounted) (before after : list Request) (r : Request)
              (settled : Completion JSValue) :
    in_flight (now m) = before ++ r :: after ->
    step (Settle before after r settled) m (resumed before after r settled m).

(** The states a component mounted with some [lang] can be in. *)
Inductive reachable : Mounted -> Prop :=
| reach_mount (l : Lang) : reachable (first_render l)
| reach_step (a : Action) (m m' : Mounted) :
    reachable m -> step a m m' -> reachable m'.

(** A click meets a button that was rendered with the [loading] of now:
    the component has been rendered since [loading] last changed.  Two
    clicks of a user come in two tasks, and the component is rendered in
    between. *)
Definition click_sees_loading (a : Action) (m : Mounted) : Prop :=
  match a with
  | Click => loading (shown m) = loading (cells (now m))
  | _ => True
  end.

(** The states a component can be in when every click sees the [loading]
    of now. *)
Inductive reachable_in_tasks : Mounted -> Prop :=
| in_tasks_mount (l : Lang) : reachable_in_tasks (first_render l)
| in_tasks_step (a : Action) (m m' : Mounted) :
    reachable_in_tasks m -> click_sees_loading a m -> step a m m' ->
    reachable_in_tasks m'.

End PlannerTool.

(* ================================================================== *)
(** ** [src/components/PlannerTool.tsx]: [handlePlan] with the call it awaits *)
(* ================================================================== *)

Module PlannerSession.
Import PlannerTool.

(** One execution of [handlePlan] from its first line to its last, in a
    process: the call [generateExecutionPlan(input, lang)] of line 38 is
    made in the process [p] after the trace [tr].  The result is the state
    the handler leaves and the trace. *)
Definition handlePlan_in (lang : Lang) (p : Process) (tr : list Event) (s : State)
  : State * list Event :=
  match handlePlan_begin lang s with
  | (s1, Some r) =>
      let '(settled, tr') := generateExecutionPlan (req_task r) (req_lang r) p tr in
      (handlePlan_resume lang settled s1, tr')
  | (s1, None) => (s1, tr)
  end.

End PlannerSession.

(* ================================================================== *)
(** ** [src/components/PlannerTool.tsx]: what the component returns *)
(* ================================================================== *)

Module PlannerView.
Import PlannerTool.

(** The table [t] of the component, entry by entry. *)
Record Texts : Type := mkTexts {
  t_title : JSString;
  t_desc : JSString;
  t_placeholder : JSString;
  t_button : JSString;
  t_blueprint : JSString;
  t_strategy : JSString;
  t_risk : JSString;
  t_error_text : JSString
}.

Definition t (lang : Lang) : Texts :=
  match lang with
  | en =>
      {| t_title := js "The Vibe Planner";
         t_desc := js "Input your complex feature requirement below. The AI will decompose it into a safe, iteration-proof execution plan based on the SOP.";
         t_placeholder := js "e.g., I need a real-time dashboard with websocket updates, auth, and complex role-based filtering...";
         t_button := js "Decompose Task";
         t_blueprint := js "Execution Blueprint";
         t_strategy := js "Prompt Strategy";
         t_risk := js "Risk";
         t_error_text := t_error en |}
  | zh =>
      {| t_title := js "Vibe " ++ [35268; 21010; 22120]%N;
         t_desc :=
           [22312; 19979; 26041; 36755; 20837; 22797; 26434; 30340; 24320; 21457;
            38656; 27714; 12290]%N ++ js "AI " ++ [23558; 22522; 20110]%N ++
           js " SOP " ++
           [23558; 20854; 25286; 35299; 20026; 23433; 20840; 30340; 12289; 38450;
            24187; 35273; 30340; 25191; 34892; 35745; 21010; 12290]%N;
         t_placeholder :=
           [20363; 22914; 65306; 25105; 38656; 35201; 19968; 20010; 21253; 21547]%N ++
           js " Websocket " ++
           [23454; 26102; 26356; 26032; 12289; 36523; 20221; 39564; 35777; 21644;
            22522; 20110; 35282; 33394; 30340; 22797; 26434; 36807; 28388; 21151;
            33021; 30340; 20202; 34920; 30424]%N ++ js "...";
         t_button := [25286; 35299; 20219; 21153]%N;
         t_blueprint := [25191; 34892; 34013; 22270]%N;
         t_strategy := [25552; 31034; 35789; 31574; 30053]%N;
         t_risk := [28508; 22312; 39118; 38505]%N;
         t_error_text := t_error zh |}
  end.

(** An expression has a value, or throws a [TypeError]. *)
Inductive Evaluated (A : Type) : Type :=
| Value (a : A)
| ThrowsTypeError.
Arguments ThrowsTypeError {A}.

(** [o.k] for a value [o] that is not [null] and one of the keys [steps],
    [title], [promptStrategy] and [risk], which no prototype defines: an
    own property of an object, and [undefined] ([None]) otherwise. *)
Definition member (k : string) (o : JSValue) : option JSValue :=
  match o with
  | JObject props => get_prop (js k) props
  | _ => None
  end.

(** What the callback of [plan.steps.map] puts in the card of a step: the
    [key], the number [idx + 1], and the three values read off the step,
    each between its label. *)
Record StepCard : Type := mkCard {
  card_key : nat;
  card_number : nat;
  card_title : option JSValue;
  strategy_label : JSString;
  card_strategy : option JSValue;
  risk_label : JSString;
  card_risk : option JSValue
}.

(** The callback [(step, idx) => ...]: reading a property of [null]
    throws. *)
Definition step_card (texts : Texts) (step : JSValue) (idx : nat) : Evaluated StepCard :=
  match step with
  | JNull => ThrowsTypeError
  | _ =>
      Value {| card_key := idx;
               card_number := idx + 1;
               card_title := member "title" step;
               strategy_label := t_strategy texts;
               card_strategy := member "promptStrategy" step;
               risk_label := t_risk texts;
               card_risk := member "risk" step |}
  end.

(** [Array.prototype.map] with that callback, from the index [idx] on. *)
Fixpoint map_cards (texts : Texts) (elems : list JSValue) (idx : nat)
  : Evaluated (list StepCard) :=
  match elems with
  | [] => Value []
  | step :: rest =>
      match step_card texts step idx with
      | ThrowsTypeError => ThrowsTypeError
      | Value card =>
          match map_cards texts rest (S idx) with
          | ThrowsTypeError => ThrowsTypeError
          | Value cards => Value (card :: cards)
          end
      end
  end.

(** [plan.steps.map(...)] for a [plan] that is truthy: [plan.steps] has
    to be an array, since of the values [JSON.parse] builds only arrays
    have a [map] that can be called, and reading [map] off [undefined] or
    [null] throws. *)
Definition plan_cards (texts : Texts) (plan : JSValue) : Evaluated (list StepCard) :=
  match member "steps" plan with
  | Some (JArray elems) => map_cards texts elems 0
  | _ => ThrowsTypeError
  end.

(** [x && e]: the left operand when it is falsy, and [e] otherwise. *)
Inductive Guarded (F A : Type) : Type :=
| LeftOperand (x : F)
| RightOperand (a : A).
Arguments LeftOperand {F A} x.
Arguments RightOperand {F A} a.

Inductive ButtonContent : Type :=
| Spinner
| Label (text : JSString).

Record PlanPanel : Type := mkPanel {
  panel_heading : JSString;
  panel_cards : list StepCard
}.

(** What the component returns, without the markup that is the same for
    every state: the two texts of the header, the textarea, the button,
    the error box and the plan. *)
Record View : Type := mkView {
  view_title : JSString;
  view_desc : JSString;
  textarea_value : JSString;
  textarea_placeholder : JSString;
  button_disabled_attr : bool;
  button_content : ButtonContent;
  error_box : Guarded (option JSString) JSString;
  plan_panel : Guarded JSValue PlanPanel
}.

(** The body of the component from line 51 on, for the cells [s]. *)
Definition render (lang : Lang) (s : State) : Evaluated View :=
  let texts := t lang in
  let button :=
    if loading s then Spinner else Label (t_button texts) in
  let error_part :=
    match error s with
    | Some e => if string_truthy e then RightOperand e else LeftOperand (Some e)
    | None => LeftOperand None
    end in
  let finish (panel : Guarded JSValue PlanPanel) : View :=
    {| view_title := t_title texts;
       view_desc := t_desc texts;
       textarea_value := input s;
       textarea_placeholder := t_placeholder texts;
       button_disabled_attr := loading s || negb (string_truthy (input s));
       button_content := button;
       error_box := error_part;
       plan_panel := panel |} in
  if truthy (plan s) then
    match plan_cards texts (plan s) with
    | Value cards => Value (finish (RightOperand (mkPanel (t_blueprint texts) cards)))
    | ThrowsTypeError => ThrowsTypeError
    end
  else Value (finish (LeftOperand (plan s))).

End PlannerView.

(* ================================================================== *)
(** ** [src/App.tsx]: the state of [App] and the planner it mounts *)
(* ================================================================== *)

Module App.

(** [PhaseId] of [src/types.ts]. *)
Inductive PhaseId : Type :=
| MANIFESTO | DECOMPOSITION | CONTEXT | ITERATION | REVIEW | CLOSING | TOOLKIT.

Definition PhaseId_value (id : PhaseId) : JSString :=
  match id with
  | MANIFESTO => js "manifesto"
  | DECOMPOSITION => js "decomposition"
  | CONTEXT => js "context"
  | ITERATION => js "iteration"
  | REVIEW => js "review"
  | CLOSING => js "closing"
  | TOOLKIT => js "toolkit"
  end.

(** [activePhase !== PhaseId.TOOLKIT], on the values of the enumeration. *)
Definition is_toolkit (id : PhaseId) : bool :=
  jsstring_eqb (PhaseId_value id) (PhaseId_value TOOLKIT).

(** The two [useState] cells of [App]. *)
Record State : Type := mkState {
  activePhase : PhaseId;
  lang : Lang
}.

Definition initial : State := {| activePhase := MANIFESTO; lang := en |}.

(** [l => l === 'en' ? 'zh' : 'en']. *)
Definition toggle (l : Lang) : Lang :=
  match l with
  | en => zh
  | zh => en
  end.

(** The timer that [handlePhaseChange] sets: after [delay] milliseconds
    the content is scrolled into view. *)
Record ScrollTimer : Type := mkTimer {
  delay : Z
}.

(** [handlePhaseChange(id)], with the width of the window and whether
    [contentRef.current] is set. *)
Definition handlePhaseChange (id : PhaseId) (innerWidth : Z) (content_mounted : bool)
           (s : State) : State * option ScrollTimer :=
  ({| activePhase := id; lang := lang s |},
   if (innerWidth <? 1024)%Z && content_mounted then Some (mkTimer 50) else None).

(** The page: the cells of [App], and the [PlannerTool] that is mounted
    when the active phase is the toolkit.  A component that is not
    rendered any more is unmounted and its cells are gone; one that is
    rendered again at the same place keeps them. *)
Record Page : Type := mkPage {
  cells : State;
  planner : option PlannerTool.Component
}.

Definition first_page : Page := {| cells := initial; planner := None |}.

Definition with_lang (l : Lang) (c : PlannerTool.Component) : PlannerTool.Component :=
  {| PlannerTool.cells := PlannerTool.cells c;
     PlannerTool.lang_prop := l;
     PlannerTool.in_flight := PlannerTool.in_flight c |}.

(** [activePhase !== PhaseId.TOOLKIT ? (...) : <PlannerTool lang={lang} />]
    after the cells have become [s], when [old] was mounted before. *)
Definition planner_for (s : State) (old : option PlannerTool.Component)
  : option PlannerTool.Component :=
  if is_toolkit (activePhase s) then
    match old with
    | Some c => Some (with_lang (lang s) c)
    | None => Some (PlannerTool.mounted (lang s))
    end
  else None.

Definition show (s : State) (pg : Page) : Page :=
  {| cells := s; planner := planner_for s (planner pg) |}.

(** The page on the screen: the page, and the cells of the mounted planner
    as its last render read them ([PlannerTool.initial] when no planner is
    mounted). *)
Record Screen : Type := mkScreen {
  page : Page;
  planner_shown : PlannerTool.State
}.

Definition first_screen : Screen :=
  {| page := first_page; planner_shown := PlannerTool.initial |}.

(** A render of [App] renders the planner it mounts, which reads its
    cells. *)
Definition on_screen (pg : Page) : Screen :=
  {| page := pg;
     planner_shown := match planner pg with
                      | Some c => PlannerTool.cells c
                      | None => PlannerTool.initial
                      end |}.

(** An action of the mounted planner. *)
Definition planner_acts (a : PlannerTool.Action) (sc sc' : Screen) : Prop :=
  exists c c',
    planner (page sc) = Some c /\
    PlannerTool.step a {| PlannerTool.shown := planner_shown sc; PlannerTool.now := c |}
                       {| PlannerTool.shown := planner_shown sc'; PlannerTool.now := c' |} /\
    PlannerTool.lang_prop c' = PlannerTool.lang_prop c /\
    page sc' = {| cells := cells (page sc); planner := Some c' |}.

(** What can happen to the page. *)
Inductive step : Screen -> Screen -> Prop :=
| step_toggle (sc : Screen) :
    (* the language button *)
    step sc (on_screen (show {| activePhase := activePhase (cells (page sc));
                                lang := toggle (lang (cells (page sc))) |} (page sc)))
| step_phase (sc : Screen) (id : PhaseId) (innerWidth : Z) (content_mounted : bool) :
    (* a button of the navigation *)
    step sc (on_screen (show (fst (handlePhaseChange id innerWidth content_mounted
                                                     (cells (page sc)))) (page sc)))
| step_planner (sc sc' : Screen) (a : PlannerTool.Action) :
    (* the planner is rendered again with the same [lang], or its textarea
       changes, or its button is clicked, or one of its requests settles *)
    planner_acts a sc sc' ->
    step sc sc'.

Inductive reachable_screen : Screen -> Prop :=
| reach_first : reachable_screen first_screen
| reach_step (sc sc' : Screen) : reachable_screen sc -> step sc sc' -> reachable_screen sc'.

(** The pages that can be on the screen. *)
Definition reachable (pg : Page) : Prop :=
  exists sc, reachable_screen sc /\ page sc = pg.

End App.

(* ================================================================== *)
(** ** Vocabulary of the properties *)
(* ================================================================== *)

(** The credential is absent when [API_KEY] is not set or is empty, and
    present otherwise. *)
Definition credential_absent (p : Process) : Prop :=
  env_API_KEY p = None \/ env_API_KEY p = Some [].

Definition credential_present (p : Process) : Prop :=
  exists k, env_API_KEY p = Some k /\ k <> [].

(** How the service answers the request of a call made after the trace
    [tr]. *)
Definition service_answer (p : Process) (tr : list Event)
           (taskDescription : JSString) (lang : Lang) : Outcome :=
  service p (requests_of tr) (request_for taskDescription lang).

(** The service resolves with a response whose text is [body]. *)
Definition replies_with (p : Process) (tr : list Event)
           (taskDescription : JSString) (lang : Lang) (body : option JSString) : Prop :=
  service_answer p tr taskDescription lang = Resolve (mkResponse body).

(** The two diagnostic lines of the source. *)
Definition log_missing_key : Event :=
  ConsoleError [LString (js "API Key is missing")].
Definition log_failure (e : Thrown) : Event :=
  ConsoleError [LString (js "Error generating plan:"); LThrown e].

(** A mocked service: it answers every request in the same way. *)
Definition mock (key : option JSString) (answer : Outcome) : Process :=
  {| env_API_KEY := key; service := fun _ _ => answer |}.

Definition mock_body (body : JSString) : Process :=
  mock (Some (js "test-key")) (Resolve (mkResponse (Some body))).

(** A mocked service whose response has no text at all. *)
Definition mock_no_text : Process :=
  mock (Some (js "test-key")) (Resolve (mkResponse None)).

(** Reading a schema. *)
Fixpoint schema_lookup (k : JSString) (ps : list (JSString * Schema)) : option Schema :=
  match ps with
  | [] => None
  | (k', s) :: r => if jsstring_eqb k k' then Some s else schema_lookup k r
  end.

Definition schema_property (k : string) (s : Schema) : option Schema :=
  match schema_properties s with
  | Some ps => schema_lookup (js k) ps
  | None => None
  end.

Definition property_names (s : Schema) : list JSString :=
  match schema_properties s with
  | Some ps => map fst ps
  | None => []
  end.

Definition is_required (k : string) (s : Schema) : bool :=
  match schema_required s with
  | Some names => existsb (jsstring_eqb (js k)) names
  | None => false
  end.

(** The three fields of a step. *)
Definition step_fields : list string := ["title"; "promptStrategy"; "risk"]%string.

(** The response-shape constraint: an object with the one field [steps],
    an array of objects whose fields are the three step fields, each a
    string and each required. *)
Definition constrains_to_plan (s : Schema) : Prop :=
  schema_type s = OBJECT /\
  property_names s = [js "steps"] /\
  exists arr elt,
    schema_property "steps" s = Some arr /\
    schema_type arr = ARRAY /\
    schema_items arr = Some elt /\
    schema_type elt = OBJECT /\
    property_names elt = map js step_fields /\
    forall f, In f step_fields ->
      (exists fs, schema_property f elt = Some fs /\ schema_type fs = STRING) /\
      is_required f elt = true.

(** A step object and the step it is read as: the three fields of the
    object are strings and are the three fields of the step. *)
Definition step_of_object (so : JSValue) (st : PlanStep) : Prop :=
  exists o,
    so = JObject o /\
    get_string "title" o = Some (title st) /\
    get_string "promptStrategy" o = Some (promptStrategy st) /\
    get_string "risk" o = Some (risk st).

(** A value that conforms to the response schema, with its step objects
    in the order of the array [steps]. *)
Definition conforms (v : JSValue) (step_objects : list JSValue) : Prop :=
  exists o,
    v = JObject o /\
    get_prop (js "steps") o = Some (JArray step_objects) /\
    Forall (fun so => exists st, step_of_object so st) step_objects.

(** A payload whose one step object has no [title]. *)
Definition body_without_title : JSString :=
  js "{" ++ dquote :: js "steps" ++ dquote :: js ":[{" ++
  dquote :: js "promptStrategy" ++ dquote :: js ":" ++ dquote :: js "a" ++ dquote ::
  js "," ++ dquote :: js "risk" ++ dquote :: js ":" ++ dquote :: js "b" ++ dquote ::
  js "}]}".

(** *** Payloads that conform

    A JSON text for every plan, written the compact way: strings between
    quotes, with the quote and the backslash escaped and the control
    characters as [\u00XX].  Every writer takes the text that follows. *)
Definition hex_digit (n : N) : N :=
  if (n <? 10)%N then (48 + n)%N else (87 + n)%N.

Definition escape_char (c : N) : JSString :=
  if (c =? dquote)%N then [cu "\"; dquote]
  else if (c =? cu "\")%N then [cu "\"; cu "\"]
  else if (c <? 32)%N then
    [cu "\"; cu "u"; cu "0"; cu "0"; hex_digit (c / 16); hex_digit (c mod 16)]
  else [c].

Fixpoint write_chars (s rest : JSString) : JSString :=
  match s with
  | [] => dquote :: rest
  | c :: r => escape_char c ++ write_chars r rest
  end.

Definition write_string (s rest : JSString) : JSString :=
  dquote :: write_chars s rest.

Definition write_member (k : string) (v rest : JSString) : JSString :=
  write_string (js k) (cu ":" :: write_string v rest).

Definition write_step (st : PlanStep) (rest : JSString) : JSString :=
  cu "{" ::
  write_member "title" (title st)
    (cu "," ::
     write_member "promptStrategy" (promptStrategy st)
       (cu "," ::
        write_member "risk" (risk st) (cu "}" :: rest))).

Fixpoint write_more_steps (sts : list PlanStep) (rest : JSString) : JSString :=
  match sts with
  | [] => cu "]" :: rest
  | st :: sts' => cu "," :: write_step st (write_more_steps sts' rest)
  end.

Definition write_steps (sts : list PlanStep) (rest : JSString) : JSString :=
  cu "[" ::
  match sts with
  | [] => cu "]" :: rest
  | st :: sts' => write_step st (write_more_steps sts' rest)
  end.

Definition write_plan (plan : PlannerResponse) : JSString :=
  cu "{" :: write_string (js "steps") (cu ":" :: write_steps (steps plan) [cu "}"]).

(** The value of a written plan. *)
Definition step_value (st : PlanStep) : JSValue :=
  JObject [(js "title", JString (title st));
           (js "promptStrategy", JString (promptStrategy st));
           (js "risk", JString (risk st))].

Definition plan_value (plan : PlannerResponse) : JSValue :=
  JObject [(js "steps", JArray (map step_value (steps plan)))].

(** The payload of Scenario A and its plan. *)
Definition scenarioA_body : JSString :=
  js "{" ++ dquote :: js "steps" ++ dquote :: js ":[{" ++
  dquote :: js "title" ++ dquote :: js ":" ++
  dquote :: js "Define types" ++ dquote :: js "," ++
  dquote :: js "promptStrategy" ++ dquote :: js ":" ++
  dquote :: js "Ask for interface only" ++ dquote :: js "," ++
  dquote :: js "risk" ++ dquote :: js ":" ++
  dquote :: js "Hallucinated fields" ++ dquote :: js "}]}".

Definition scenarioA_plan : PlannerResponse :=
  mkPlan [mkStep (js "Define types") (js "Ask for interface only")
                 (js "Hallucinated fields")].

Definition scenarioA_step_object : JSValue :=
  JObject [(js "title", JString (js "Define types"));
           (js "promptStrategy", JString (js "Ask for interface only"));
           (js "risk", JString (js "Hallucinated fields"))].

Definition scenarioA_value : JSValue :=
  JObject [(js "steps", JArray [scenarioA_step_object])].

(** At most one of the plan and the error is not [null]. *)
Definition plan_or_error (s : PlannerTool.State) : Prop :=
  PlannerTool.plan s = JNull \/ PlannerTool.error s = None.

(** What holds of the cells and the requests of a mounted component when
    every click sees the [loading] of now: with no request in flight it is
    not loading and has a plan or an error but not both; with a request in
    flight it is loading, with no plan and no error; and there are never
    two requests in flight. *)
Definition component_invariant (c : PlannerTool.Component) : Prop :=
  match PlannerTool.in_flight c with
  | [] =>
      PlannerTool.loading (PlannerTool.cells c) = false /\
      plan_or_error (PlannerTool.cells c)
  | [_] =>
      PlannerTool.loading (PlannerTool.cells c) = true /\
      PlannerTool.plan (PlannerTool.cells c) = JNull /\
      PlannerTool.error (PlannerTool.cells c) = None
  | _ :: _ :: _ => False
  end.

(** A component after the task of Scenario A was typed, after the button
    was then clicked, and after the request was then settled with the plan
    of Scenario A. *)
Definition typed : PlannerTool.Component :=
  {| PlannerTool.cells := PlannerTool.setInput (js "Add a login page") PlannerTool.initial;
     PlannerTool.lang_prop := en;
     PlannerTool.in_flight := [] |}.

Definition waiting : PlannerTool.Component := PlannerTool.click typed.

Definition settled_with_plan : PlannerTool.Component :=
  {| PlannerTool.cells :=
       PlannerTool.handlePlan_resume en (Normal scenarioA_value)
                                     (PlannerTool.cells waiting);
     PlannerTool.lang_prop := en;
     PlannerTool.in_flight := [] |}.

(** The same three moments of a mounted component, each rendered. *)
Definition typed_mounted : PlannerTool.Mounted :=
  PlannerTool.rendered en
    (PlannerTool.changed (js "Add a login page") (PlannerTool.first_render en)).

Definition waiting_mounted : PlannerTool.Mounted :=
  PlannerTool.rendered en (PlannerTool.clicked typed_mounted).

Definition settled_mounted : PlannerTool.Mounted :=
  PlannerTool.rendered en
    (PlannerTool.resumed [] [] (PlannerTool.mkRequest (js "Add a login page") en)
                         (Normal scenarioA_value) waiting_mounted).

(** Two clicks on the button of one render: the second comes before the
    component is rendered again. *)
Definition clicked_twice : PlannerTool.Mounted :=
  PlannerTool.clicked (PlannerTool.clicked typed_mounted).

(** After the two clicks, the first request is settled with the plan of
    Scenario A and the second with [null], and the component is
    rendered. *)
Definition settled_twice : PlannerTool.Mounted :=
  PlannerTool.rendered en
    (PlannerTool.resumed [] [] (PlannerTool.mkRequest (js "Add a login page") en)
       (Normal JNull)
       (PlannerTool.resumed [] [PlannerTool.mkRequest (js "Add a login page") en]
          (PlannerTool.mkRequest (js "Add a login page") en)
          (Normal scenarioA_value) clicked_twice)).

(** What holds of a mounted component when every click sees the [loading]
    of now: the invariant of its cells and requests, and not both a plan
    and an error in what the last render read. *)
Definition mounted_invariant (m : PlannerTool.Mounted) : Prop :=
  component_invariant (PlannerTool.now m) /\ plan_or_error (PlannerTool.shown m).

(** A state whose input is blanks only: a space, a tab, a line feed, a
    no-break space and an ideographic space. *)
Definition blank_state : PlannerTool.State :=
  PlannerTool.setInput [32; 9; 10; 160; 12288]%N PlannerTool.initial.

(** *** Vocabulary of the further properties *)

(** The three fixed parts of the prompt: up to the task, from the task to
    the language instruction, and after it. *)
Definition prompt_before_task : JSString :=
  js "You are an expert Senior Technical Architect and " ++ dquote :: js "Vibe Coding" ++ dquote :: js " specialist. " ++ newline ::
  js "      Your goal is to break down a complex coding requirement into a strictly phased execution plan to prevent AI confusion and code rot." ++ newline ::
  js "      " ++ newline ::
  js "      User Task: " ++ [dquote].

Definition prompt_before_instruction : JSString :=
  dquote :: newline ::
  js "      " ++ newline ::
  js "      ".

Definition prompt_after_instruction : JSString :=
  newline ::
  newline ::
  js "      Provide a JSON response with a list of steps. For each step, include:" ++ newline ::
  js "      - title: A short, action-oriented title." ++ newline ::
  js "      - promptStrategy: Specific advice on what to tell the AI coder in this step (e.g., " ++ dquote :: js "Only generate the interface definitions" ++ dquote :: js ")." ++ newline ::
  js "      - risk: What usually goes wrong here if not careful (e.g., " ++ dquote :: js "AI hallucinates imports" ++ dquote :: js ")." ++ newline ::
  js "      ".

(** The requests of a sequence of calls. *)
Definition requests_for (calls : list (JSString * Lang)) : list GenerateContentParameters :=
  map (fun c => request_for (fst c) (snd c)) calls.

(** A string with a code unit that [trim] keeps. *)
Definition has_visible_text (s : JSString) : bool :=
  negb (forallb is_js_whitespace s).

(** The card of the step [st] at the index [idx]. *)
Definition card_of_step (texts : PlannerView.Texts) (idx : nat) (st : PlanStep)
  : PlannerView.StepCard :=
  {| PlannerView.card_key := idx;
     PlannerView.card_number := idx + 1;
     PlannerView.card_title := Some (JString (title st));
     PlannerView.strategy_label := PlannerView.t_strategy texts;
     PlannerView.card_strategy := Some (JString (promptStrategy st));
     PlannerView.risk_label := PlannerView.t_risk texts;
     PlannerView.card_risk := Some (JString (risk st)) |}.

Fixpoint cards_of_steps (texts : PlannerView.Texts) (idx : nat) (sts : list PlanStep)
  : list PlannerView.StepCard :=
  match sts with
  | [] => []
  | st :: sts' => card_of_step texts idx st :: cards_of_steps texts (S idx) sts'
  end.

(** [plan.steps] is an array with no [null] in it. *)
Definition steps_can_be_mapped (v : JSValue) : Prop :=
  exists elems,
    PlannerView.member "steps" v = Some (JArray elems) /\
    Forall (fun e => e <> JNull) elems.

(** The page after the toolkit was opened, the task of Scenario A typed
    and the button clicked. *)
Definition toolkit_page : App.Page :=
  App.show (fst (App.handlePhaseChange App.TOOLKIT 1280 true App.initial)) App.first_page.

Definition waiting_page : App.Page :=
  {| App.cells := App.cells toolkit_page; App.planner := Some waiting |}.

(** What holds of the screen at every moment: a planner is mounted
    exactly when the toolkit is the active phase, it has the language of
    the page, and it is in a state that a mounted [PlannerTool] can be
    in. *)
Definition screen_invariant (sc : App.Screen) : Prop :=
  match App.planner (App.page sc) with
  | Some c =>
      App.activePhase (App.cells (App.page sc)) = App.TOOLKIT /\
      PlannerTool.lang_prop c = App.lang (App.cells (App.page sc)) /\
      PlannerTool.reachable {| PlannerTool.shown := App.planner_shown sc;
                               PlannerTool.now := c |}
  | None => App.activePhase (App.cells (App.page sc)) <> App.TOOLKIT
  end.

(** What holds of a page that can be on the screen. *)
Definition page_invariant (pg : App.Page) : Prop :=
  match App.planner pg with
  | Some c =>
      App.activePhase (App.cells pg) = App.TOOLKIT /\
      PlannerTool.lang_prop c = App.lang (App.cells pg) /\
      exists seen,
        PlannerTool.reachable {| PlannerTool.shown := seen; PlannerTool.now := c |}
  | None => App.activePhase (App.cells pg) <> App.TOOLKIT
  end.

(** The page after a button of the navigation, and after the language
    button. *)
Definition navigate (id : App.PhaseId) (innerWidth : Z) (content_mounted : bool)
           (pg : App.Page) : App.Page :=
  App.show (fst (App.handlePhaseChange id innerWidth content_mounted (App.cells pg))) pg.

Definition toggle_language (pg : App.Page) : App.Page :=
  App.show {| App.activePhase := App.activePhase (App.cells pg);
              App.lang := App.toggle (App.lang (App.cells pg)) |} pg.

(* ================================================================== *)
(** * Properties *)
(* ================================================================== *)

(** ** Strings: when [trim] leaves nothing *)

Lemma trimStart_blank (s : JSString) :
  trimStart s = [] <-> forallb is_js_whitespace s = true.
Proof.
  induction s as [|c r IH]; simpl; [tauto|].
  destruct (is_js_whitespace c); simpl; [exact IH|].
  split; discriminate.
Qed.

Lemma trimStart_head (s r : JSString) (c : N) :
  trimStart s = c :: r -> is_js_whitespace c = false.
Proof.
  induction s as [|c' s IH]; simpl; [discriminate|].
  destruct (is_js_whitespace c') eqn:E; [exact IH|].
  intros H. inversion H; subst. exact E.
Qed.

(** The trimmed form of a string is empty exactly when the string is empty
    or holds white space and line terminators only. *)
Lemma trim_empty_iff (s : JSString) :
  trim s = [] <-> forallb is_js_whitespace s = true.
Proof.
  unfold trim, trimEnd. split.
  - intros H.
    assert (E : trimStart (rev (trimStart s)) = []).
    { rewrite <- (rev_involutive (trimStart (rev (trimStart s)))), H. reflexivity. }
    apply trimStart_blank in E.
    destruct (trimStart s) as [|c r] eqn:Es; [apply trimStart_blank; exact Es|].
    apply trimStart_head in Es.
    rewrite forallb_forall in E.
    rewrite (E c) in Es; [discriminate|].
    apply in_rev. rewrite rev_involutive. left. reflexivity.
  - intros H. apply trimStart_blank in H. rewrite H. reflexivity.
Qed.

(** ** The parser: what it consumes, and that its fuel is enough *)

Module JSONFacts.
Import JSON.

Lemma skip_ws_length (s : JSString) :
  List.length (skip_ws s) <= List.length s.
Proof.
  induction s as [|c r IH]; simpl; [lia|].
  destruct (is_ws c); simpl; lia.
Qed.

Lemma skip_ws_cons_length (s r : JSString) (c : N) :
  skip_ws s = c :: r -> List.length r < List.length s.
Proof.
  intros H. pose proof (skip_ws_length s) as L. rewrite H in L. simpl in L. lia.
Qed.

Lemma skip_ws_idem (s : JSString) : skip_ws (skip_ws s) = skip_ws s.
Proof.
  induction s as [|c r IH]; simpl; [reflexivity|].
  destruct (is_ws c) eqn:E; [exact IH|]. simpl. rewrite E. reflexivity.
Qed.

(** Case analysis on everything a hypothesis matches on. *)
Ltac split_cases H :=
  repeat (cbv beta iota in H;
          match type of H with
          | context [match ?x with _ => _ end] => destruct x eqn:?
          end);
  cbv beta iota in H; try discriminate H.

Ltac invert_ok H := inversion H; subst; clear H.

(** A string literal ends after at least its closing quote. *)
Lemma parse_chars_length_aux (n : nat) :
  forall s cs rest,
    List.length s <= n ->
    parse_chars s = Some (cs, rest) -> List.length rest < List.length s.
Proof.
  induction n as [|n IH]; intros s cs rest Hn H.
  - destruct s; simpl in *; [discriminate | lia].
  - destruct s as [|c r]; simpl in H; [discriminate|].
    split_cases H; invert_ok H;
      repeat match goal with
             | E : parse_chars _ = Some _ |- _ =>
                 apply IH in E; [|simpl in *; lia]
             end;
      simpl in *; lia.
Qed.

Lemma parse_chars_length (s cs rest : JSString) :
  parse_chars s = Some (cs, rest) -> List.length rest < List.length s.
Proof. apply (parse_chars_length_aux (n := List.length s)). lia. Qed.

Lemma parse_digits_length (s : JSString) :
  forall acc k m k' rest,
    parse_digits s acc k = (m, k', rest) -> List.length rest <= List.length s.
Proof.
  induction s as [|c r IH]; intros acc k m k' rest H; simpl in H.
  - invert_ok H. simpl. lia.
  - destruct (is_digit c).
    + apply IH in H. simpl. lia.
    + invert_ok H. simpl. lia.
Qed.

Ltac use_digits :=
  repeat match goal with
         | E : parse_digits _ _ _ = _ |- _ => apply parse_digits_length in E
         end.

Lemma parse_int_length (s : JSString) (m : N) (rest : JSString) :
  parse_int s = Some (m, rest) -> List.length rest < List.length s.
Proof.
  unfold parse_int. intros H.
  split_cases H; invert_ok H; use_digits; simpl in *; lia.
Qed.

Lemma parse_frac_length (m : N) (s : JSString) (m' : N) (k : nat) (rest : JSString) :
  parse_frac m s = Some (m', k, rest) -> List.length rest <= List.length s.
Proof.
  unfold parse_frac. intros H.
  split_cases H; invert_ok H; use_digits; simpl in *; lia.
Qed.

Lemma parse_exp_length (s : JSString) (e : Z) (rest : JSString) :
  parse_exp s = Some (e, rest) -> List.length rest <= List.length s.
Proof.
  unfold parse_exp. intros H.
  split_cases H; invert_ok H;
    repeat match goal with
           | E : context [match _ with _ => _ end] |- _ => progress split_cases E
           | E : (_, _) = (_, _) |- _ => invert_ok E
           end;
    use_digits; simpl in *; lia.
Qed.

Lemma parse_number_length (s : JSString) (n : JSNumber) (rest : JSString) :
  parse_number s = Some (n, rest) -> List.length rest < List.length s.
Proof.
  unfold parse_number. intros H.
  split_cases H; invert_ok H;
    repeat match goal with
           | E : context [match _ with _ => _ end] |- _ => progress split_cases E
           | E : (_, _) = (_, _) |- _ => invert_ok E
           | E : parse_int _ = Some _ |- _ => apply parse_int_length in E
           | E : parse_frac _ _ = Some _ |- _ => apply parse_frac_length in E
           | E : parse_exp _ = Some _ |- _ => apply parse_exp_length in E
           end;
    simpl in *; lia.
Qed.

Lemma strip_prefix_length (p : JSString) :
  forall s rest,
    strip_prefix p s = Some rest ->
    List.length rest + List.length p = List.length s.
Proof.
  induction p as [|a p IH]; intros s rest H; simpl in H.
  - invert_ok H. simpl. lia.
  - destruct s as [|b s]; [discriminate|].
    destruct (a =? b)%N; [|discriminate].
    apply IH in H. simpl. lia.
Qed.

Lemma parse_literal_length (w : string) (v v' : JSValue) (s rest : JSString) :
  js w <> [] ->
  parse_literal w v s = POk v' rest -> List.length rest < List.length s.
Proof.
  unfold parse_literal. intros Hw H.
  destruct (strip_prefix (js w) s) as [r|] eqn:E; [|discriminate].
  invert_ok H.
  apply strip_prefix_length in E.
  destruct (js w); [congruence | simpl in E; lia].
Qed.

Lemma parse_literal_not_out_of_fuel (w : string) (v : JSValue) (s : JSString) :
  parse_literal w v s <> POutOfFuel.
Proof.
  unfold parse_literal. destruct (strip_prefix (js w) s); discriminate.
Qed.

Ltac unfold_parser H :=
  cbn [parse_value parse_elements parse_members] in H.

Ltac length_facts :=
  repeat match goal with
         | E : skip_ws _ = _ :: _ |- _ => apply skip_ws_cons_length in E
         | E : parse_chars _ = Some _ |- _ => apply parse_chars_length in E
         | E : parse_number _ = Some _ |- _ => apply parse_number_length in E
         | E : parse_literal _ _ _ = POk _ _ |- _ =>
             apply parse_literal_length in E; [|discriminate]
         end.

Ltac invert_if_ok H :=
  match type of H with
  | POk _ _ = POk _ _ => invert_ok H
  | _ => idtac
  end.

(** Every parsing function that succeeds has read at least one code
    unit. *)
Lemma parser_consumes (fuel : nat) :
  (forall s v rest,
      parse_value fuel s = POk v rest -> List.length rest < List.length s) /\
  (forall s acc v rest,
      parse_elements fuel s acc = POk v rest -> List.length rest < List.length s) /\
  (forall s acc v rest,
      parse_members fuel s acc = POk v rest -> List.length rest < List.length s).
Proof.
  induction fuel as [|fuel (IHv & IHe & IHm)].
  - repeat split; intros; discriminate.
  - repeat split; intros until rest; intros H; unfold_parser H;
      split_cases H; invert_if_ok H;
      repeat match goal with
             | E : parse_value fuel _ = POk _ _ |- _ => apply IHv in E
             | E : parse_elements fuel _ _ = POk _ _ |- _ => apply IHe in E
             | E : parse_members fuel _ _ = POk _ _ |- _ => apply IHm in E
             end;
      length_facts; simpl in *; lia.
Qed.

Lemma parse_value_consumes (fuel : nat) (s : JSString) (v : JSValue) (rest : JSString) :
  parse_value fuel s = POk v rest -> List.length rest < List.length s.
Proof. apply parser_consumes. Qed.

(** With two units of fuel for each code unit and one more (two more for
    the loops over elements and members), the parser does not run out. *)
Lemma parser_fuel_enough (fuel : nat) :
  (forall s, 2 * List.length s + 1 <= fuel -> parse_value fuel s <> POutOfFuel) /\
  (forall s acc,
      2 * List.length s + 2 <= fuel -> parse_elements fuel s acc <> POutOfFuel) /\
  (forall s acc,
      2 * List.length s + 2 <= fuel -> parse_members fuel s acc <> POutOfFuel).
Proof.
  induction fuel as [|fuel (IHv & IHe & IHm)].
  - repeat split; intros; lia.
  - repeat split; intros until 1; intros X; unfold_parser X;
      split_cases X;
      try (eapply parse_literal_not_out_of_fuel; eassumption);
      repeat match goal with
             | E : parse_value fuel _ = POk _ _ |- _ =>
                 apply parse_value_consumes in E
             end;
      length_facts;
      match goal with
      | E : parse_value fuel _ = POutOfFuel |- _ =>
          apply IHv in E; [exact E | simpl in *; lia]
      | E : parse_elements fuel _ _ = POutOfFuel |- _ =>
          apply IHe in E; [exact E | simpl in *; lia]
      | E : parse_members fuel _ _ = POutOfFuel |- _ =>
          apply IHm in E; [exact E | simpl in *; lia]
      end.
Qed.

(** More fuel does not change an answer. *)
Lemma parser_fuel_monotone (fuel : nat) :
  (forall s r fuel',
      parse_value fuel s = r -> r <> POutOfFuel -> fuel <= fuel' ->
      parse_value fuel' s = r) /\
  (forall s acc r fuel',
      parse_elements fuel s acc = r -> r <> POutOfFuel -> fuel <= fuel' ->
      parse_elements fuel' s acc = r) /\
  (forall s acc r fuel',
      parse_members fuel s acc = r -> r <> POutOfFuel -> fuel <= fuel' ->
      parse_members fuel' s acc = r).
Proof.
  induction fuel as [|fuel (IHv & IHe & IHm)].
  - repeat split; intros; simpl in *; congruence.
  - repeat split; intros until fuel'; intros H Hr Hle;
      (destruct fuel' as [|fuel']; [lia|]);
      assert (Hle' : fuel <= fuel') by lia;
      subst r; cbn [parse_value parse_elements parse_members] in *;
      repeat match goal with
             | |- context [match ?x with _ => _ end] =>
                 match x with
                 | parse_value fuel' ?a =>
                     let E := fresh "E" in
                     destruct (parse_value fuel a) eqn:E;
                     [ rewrite (IHv _ _ fuel' E ltac:(discriminate) Hle')
                     | rewrite (IHv _ _ fuel' E ltac:(discriminate) Hle')
                     | exfalso; apply Hr; reflexivity ]
                 | _ => destruct x eqn:?
                 end
             end;
      try reflexivity;
      first [ apply IHv | apply IHe | apply IHm ]; auto.
Qed.

End JSONFacts.

(** ** The plan requester *)

Lemma credential_absent_apiKey (p : Process) :
  credential_absent p <-> apiKey p = [].
Proof.
  unfold credential_absent, apiKey. split.
  - intros [H | H]; rewrite H; reflexivity.
  - destruct (env_API_KEY p) as [[|c k]|]; simpl; intros H;
      [right | discriminate | left]; reflexivity.
Qed.

Lemma credential_present_apiKey (p : Process) :
  credential_present p <-> string_truthy (apiKey p) = true.
Proof.
  unfold credential_present, apiKey. split.
  - intros (k & H & Hk). rewrite H. destruct k; [congruence | reflexivity].
  - destruct (env_API_KEY p) as [[|c k]|]; simpl; intros H; try discriminate.
    exists (c :: k). split; [reflexivity | discriminate].
Qed.

Lemma credential_absent_or_present (p : Process) :
  credential_absent p \/ credential_present p.
Proof.
  unfold credential_absent, credential_present.
  destruct (env_API_KEY p) as [[|c k]|]; auto.
  right. exists (c :: k). split; [reflexivity | discriminate].
Qed.

(** [JSON.parse] has fuel enough for every text. *)
Lemma parse_never_out_of_fuel (t : JSString) :
  JSON.parse_value (JSON.fuel_for t) t <> JSON.POutOfFuel.
Proof.
  apply JSONFacts.parser_fuel_enough. unfold JSON.fuel_for. lia.
Qed.

(** The empty text is not JSON. *)
Lemma parse_empty : JSON.parse [] = None.
Proof. reflexivity. Qed.

Lemma parse_some_truthy (t : JSString) (v : JSValue) :
  JSON.parse t = Some v -> string_truthy t = true.
Proof. destruct t; [rewrite parse_empty; discriminate | reflexivity]. Qed.

(** Every path of [generateExecutionPlan], with its result and the events
    it adds to the trace. *)
Lemma generateExecutionPlan_paths (task : JSString) (lang : Lang)
      (p : Process) (tr : list Event) :
  generateExecutionPlan task lang p tr =
  if string_truthy (apiKey p) then
    match service_answer p tr task lang with
    | Reject e =>
        (Normal JNull, tr ++ [NetworkCall (request_for task lang); log_failure e])
    | Resolve response =>
        match text response with
        | None => (Normal JNull, tr ++ [NetworkCall (request_for task lang)])
        | Some t =>
            if string_truthy t then
              match JSON.parse t with
              | Some v => (Normal v, tr ++ [NetworkCall (request_for task lang)])
              | None =>
                  (Normal JNull,
                   tr ++ [NetworkCall (request_for task lang); log_failure SyntaxError])
              end
            else (Normal JNull, tr ++ [NetworkCall (request_for task lang)])
        end
    end
  else (Normal JNull, tr ++ [log_missing_key]).
Proof.
  unfold generateExecutionPlan, service_answer.
  destruct (string_truthy (apiKey p)); simpl; [|reflexivity].
  unfold try_catch, bind, generateContent.
  destruct (service p (requests_of tr) (request_for task lang)) as [response | e].
  - destruct (text response) as [t|]; [|reflexivity].
    destruct (string_truthy t); simpl; [|reflexivity].
    unfold JSON_parse. destruct (JSON.parse t); simpl; [reflexivity|].
    unfold console_error, ret. rewrite <- app_assoc. reflexivity.
  - unfold console_error, ret. rewrite <- app_assoc. reflexivity.
Qed.

Lemma requests_of_app (a b : list Event) :
  requests_of (a ++ b) = requests_of a ++ requests_of b.
Proof.
  induction a as [|[args | r] a IH]; simpl; [reflexivity | exact IH |].
  rewrite IH. reflexivity.
Qed.

Lemma call_count_app (a b : list Event) :
  call_count (a ++ b) = call_count a + call_count b.
Proof. unfold call_count. rewrite requests_of_app. apply length_app. Qed.

Lemma log_count_app (a b : list Event) :
  log_count (a ++ b) = log_count a + log_count b.
Proof. unfold log_count. rewrite filter_app. apply length_app. Qed.

Lemma skipn_length_app {A : Type} (a b : list A) :
  skipn (List.length a) (a ++ b) = b.
Proof. induction a as [|x a IH]; simpl; [reflexivity | exact IH]. Qed.

(** A call only adds to the trace. *)
Lemma trace_extends (task : JSString) (lang : Lang) (p : Process) (tr : list Event) :
  snd (generateExecutionPlan task lang p tr) = tr ++ emitted task lang p tr.
Proof.
  unfold emitted. rewrite generateExecutionPlan_paths.
  repeat match goal with
         | |- context [match ?x with _ => _ end] => destruct x
         end;
    simpl; rewrite skipn_length_app; reflexivity.
Qed.

(** The promise of [generateExecutionPlan] is never rejected. *)
Lemma generateExecutionPlan_never_throws (task : JSString) (lang : Lang)
      (p : Process) (tr : list Event) :
  exists v, fst (generateExecutionPlan task lang p tr) = Normal v.
Proof.
  rewrite generateExecutionPlan_paths.
  repeat match goal with
         | |- context [match ?x with _ => _ end] => destruct x
         end;
    simpl; eauto.
Qed.

Ltac on_path :=
  rewrite generateExecutionPlan_paths;
  repeat match goal with
         | H : credential_present _ |- _ =>
             apply credential_present_apiKey in H; rewrite H
         | H : credential_absent _ |- _ =>
             apply credential_absent_apiKey in H; rewrite H
         | H : replies_with _ _ _ _ _ |- _ =>
             unfold replies_with in H; rewrite H
         | H : service_answer _ _ _ _ = _ |- _ => rewrite H
         end;
  cbn [text string_truthy].

(** *** Valid JSON of the wrong shape *)

Lemma valid_json_is_returned_unchecked_core
      (p : Process) (tr : list Event) (task : JSString) (lang : Lang)
      (body : JSString) (v : JSValue) :
  credential_present p ->
  replies_with p tr task lang (Some body) ->
  JSON.parse body = Some v ->
  generateExecutionPlan task lang p tr =
    (Normal v, tr ++ [NetworkCall (request_for task lang)]).
Proof.
  intros Hc Hr Hv.
  on_path. rewrite (parse_some_truthy _ Hv), Hv. reflexivity.
Qed.

(** C1, as the code has it: for every response whose body is valid JSON,
    whatever fields it has or lacks, [generateExecutionPlan] returns the
    value that [JSON.parse] gives for the body, unchecked, adds nothing to
    the console, and so returns [null] only when that value is [null]. *)
Theorem valid_json_is_returned_unchecked
        (p : Process) (tr : list Event) (task : JSString) (lang : Lang)
        (body : JSString) (v : JSValue) :
  credential_present p ->
  replies_with p tr task lang (Some body) ->
  JSON.parse body = Some v ->
  generateExecutionPlan task lang p tr =
    (Normal v, tr ++ [NetworkCall (request_for task lang)]) /\
  (fst (generateExecutionPlan task lang p tr) = Normal JNull <-> v = JNull).
Proof.
  intros Hc Hr Hv.
  pose proof (valid_json_is_returned_unchecked_core Hc Hr Hv) as E.
  split; [exact E|]. rewrite E. simpl. split; congruence.
Qed.

(** C1 fails at the body [{}] of Scenario B, and at a body whose one step
    has no [title]: both are valid JSON, neither is a plan, and the result
    is the parsed object, not [null]. *)
Lemma empty_object_is_returned :
  JSON.parse (js "{}") = Some (JObject []) /\
  as_plan (JObject []) = None /\
  fst (generateExecutionPlan (js "Add a login page") en (mock_body (js "{}")) [])
    = Normal (JObject []) /\
  is_null (JObject []) = false /\
  (exists v,
      JSON.parse body_without_title = Some v /\
      as_plan v = None /\
      is_null v = false /\
      fst (generateExecutionPlan (js "Add a login page") en
             (mock_body body_without_title) []) = Normal v).
Proof.
  split; [reflexivity|]. split; [reflexivity|]. split; [reflexivity|].
  split; [reflexivity|].
  eexists. repeat split; vm_compute; reflexivity.
Qed.

Lemma valid_json_is_returned_unchecked_witness :
  generateExecutionPlan (js "Add a login page") en (mock_body (js "{}")) [] =
    (Normal (JObject []),
     [] ++ [NetworkCall (request_for (js "Add a login page") en)]) /\
  (fst (generateExecutionPlan (js "Add a login page") en (mock_body (js "{}")) [])
     = Normal JNull <-> JObject [] = JNull).
Proof.
  apply (@valid_json_is_returned_unchecked
           (mock_body (js "{}")) [] (js "Add a login page") en (js "{}") (JObject [])).
  - exists (js "test-key"). split; [reflexivity | discriminate].
  - reflexivity.
  - reflexivity.
Defined.

(** *** No credential *)

Lemma run_calls_without_credential (calls : list (JSString * Lang)) (p : Process) :
  apiKey p = [] ->
  forall tr,
    fst (run_calls calls p tr) = map (fun _ => Normal JNull) calls /\
    requests_of (snd (run_calls calls p tr)) = requests_of tr /\
    log_count (snd (run_calls calls p tr)) = log_count tr + List.length calls.
Proof.
  intros Hk. induction calls as [|[task lang] calls IH]; intros tr; simpl.
  - repeat split. lia.
  - rewrite generateExecutionPlan_paths, Hk. simpl.
    specialize (IH (tr ++ [log_missing_key])).
    destruct (run_calls calls p (tr ++ [log_missing_key])) as [rs tr2].
    simpl in *. destruct IH as (-> & -> & ->).
    rewrite requests_of_app, log_count_app. simpl.
    rewrite app_nil_r. repeat split.
    change (log_count [log_missing_key]) with 1. lia.
Qed.

(** C2: when the credential is absent, a call returns [null] after one
    line on the console and no call to the service, whatever the task and
    the language; and so does every call of any sequence of calls: all
    results are [null] and the transport has recorded no call. *)
Theorem missing_credential_no_result_no_network
        (p : Process) (tr : list Event) (calls : list (JSString * Lang)) :
  credential_absent p ->
  (forall task lang tr0,
      generateExecutionPlan task lang p tr0 = (Normal JNull, tr0 ++ [log_missing_key]) /\
      call_count (emitted task lang p tr0) = 0) /\
  fst (run_calls calls p tr) = map (fun _ => Normal JNull) calls /\
  call_count (snd (run_calls calls p tr)) = call_count tr.
Proof.
  intros Hc. pose proof (proj1 (credential_absent_apiKey p) Hc) as Hk.
  split.
  - intros task lang tr0. unfold emitted.
    rewrite generateExecutionPlan_paths, Hk. simpl.
    rewrite skipn_length_app. split; reflexivity.
  - destruct (run_calls_without_credential calls p Hk tr) as (H1 & H2 & _).
    unfold call_count. rewrite H1, H2. split; reflexivity.
Qed.

Lemma missing_credential_no_result_no_network_witness :
  (forall task lang tr0,
      generateExecutionPlan task lang (mock None (Reject (RemoteFault []))) tr0
        = (Normal JNull, tr0 ++ [log_missing_key]) /\
      call_count (emitted task lang (mock None (Reject (RemoteFault []))) tr0) = 0) /\
  fst (run_calls [(js "Add a login page", en); (js "Add a login page", zh)]
         (mock None (Reject (RemoteFault []))) [])
    = map (fun _ => Normal JNull)
          [(js "Add a login page", en); (js "Add a login page", zh)] /\
  call_count (snd (run_calls [(js "Add a login page", en); (js "Add a login page", zh)]
                     (mock None (Reject (RemoteFault []))) [])) = call_count [].
Proof.
  apply (@missing_credential_no_result_no_network
           (mock None (Reject (RemoteFault []))) []
           [(js "Add a login page", en); (js "Add a login page", zh)]).
  left. reflexivity.
Defined.

(** *** A conforming payload *)

Lemma as_step_spec (so : JSValue) (st : PlanStep) :
  as_step so = Some st <-> step_of_object so st.
Proof.
  unfold step_of_object, as_step. split.
  - destruct so as [| | | |?|o]; try discriminate.
    destruct (get_string "title" o) as [a|] eqn:Ea; [|discriminate].
    destruct (get_string "promptStrategy" o) as [b|] eqn:Eb; [|discriminate].
    destruct (get_string "risk" o) as [c|] eqn:Ec; [|discriminate].
    intros H. inversion H; subst. exists o. simpl. repeat split; assumption.
  - intros (o & -> & -> & -> & ->). destruct st; reflexivity.
Qed.

Lemma as_steps_spec (sos : list JSValue) :
  forall sts, as_steps sos = Some sts <-> Forall2 step_of_object sos sts.
Proof.
  induction sos as [|so sos IH]; intros sts; simpl.
  - split.
    + intros H. inversion H. constructor.
    + intros H. inversion H. reflexivity.
  - split.
    + destruct (as_step so) as [st|] eqn:E; [|discriminate].
      destruct (as_steps sos) as [sts'|]; [|discriminate].
      intros H. inversion H; subst. constructor.
      * apply as_step_spec. exact E.
      * apply IH. reflexivity.
    + intros H. inversion H as [|? st ? sts' H1 H2]; subst.
      apply as_step_spec in H1. rewrite H1.
      apply IH in H2. rewrite H2. reflexivity.
Qed.

Lemma conforms_as_plan (v : JSValue) (sos : list JSValue) :
  conforms v sos ->
  exists plan, as_plan v = Some plan /\ Forall2 step_of_object sos (steps plan).
Proof.
  intros (o & -> & Hs & Hall).
  assert (exists sts, Forall2 step_of_object sos sts) as (sts & Hsts).
  { clear Hs. induction Hall as [|so sos (st & Hst) _ (sts & IH)].
    - exists []. constructor.
    - exists (st :: sts). constructor; assumption. }
  exists (mkPlan sts). split; [|exact Hsts].
  simpl. rewrite Hs. apply as_steps_spec in Hsts. rewrite Hsts. reflexivity.
Qed.

(** C3: when the body of the response is JSON that conforms to the schema,
    with N step objects, [generateExecutionPlan] returns a value that is a
    plan of exactly N steps, in the order of the step objects, and the
    title, prompt strategy and risk of each step are the strings of its
    step object, unchanged. *)
Theorem conforming_payload_round_trip
        (p : Process) (tr : list Event) (task : JSString) (lang : Lang)
        (body : JSString) (v : JSValue) (step_objects : list JSValue) :
  credential_present p ->
  replies_with p tr task lang (Some body) ->
  JSON.parse body = Some v ->
  conforms v step_objects ->
  exists result plan,
    fst (generateExecutionPlan task lang p tr) = Normal result /\
    as_plan result = Some plan /\
    List.length (steps plan) = List.length step_objects /\
    Forall2 step_of_object step_objects (steps plan).
Proof.
  intros Hc Hr Hv Hconf.
  destruct (conforms_as_plan Hconf) as (plan & Hplan & Hsteps).
  exists v, plan.
  rewrite (valid_json_is_returned_unchecked_core Hc Hr Hv). simpl. repeat split; try assumption.
  symmetry. eapply Forall2_length; eassumption.
Qed.

(** Scenario A: the mocked payload is read as the one-step plan with its
    three strings. *)
Example scenarioA :
  JSON.parse scenarioA_body = Some scenarioA_value /\
  fst (generateExecutionPlan (js "Add a login page") en (mock_body scenarioA_body) [])
    = Normal scenarioA_value /\
  as_plan scenarioA_value = Some scenarioA_plan.
Proof. repeat split; vm_compute; reflexivity. Qed.

Lemma conforming_payload_round_trip_witness :
  exists result plan,
    fst (generateExecutionPlan (js "Add a login page") en (mock_body scenarioA_body) [])
      = Normal result /\
    as_plan result = Some plan /\
    List.length (steps plan) = List.length [scenarioA_step_object] /\
    Forall2 step_of_object [scenarioA_step_object] (steps plan).
Proof.
  apply (@conforming_payload_round_trip
           (mock_body scenarioA_body) [] (js "Add a login page") en
           scenarioA_body scenarioA_value [scenarioA_step_object]).
  - exists (js "test-key"). split; [reflexivity | discriminate].
  - reflexivity.
  - vm_compute. reflexivity.
  - exists [(js "steps", JArray [scenarioA_step_object])].
    split; [reflexivity|]. split; [reflexivity|].
    constructor; [|constructor].
    exists (mkStep (js "Define types") (js "Ask for interface only")
                   (js "Hallucinated fields")).
    apply as_step_spec. reflexivity.
Defined.

(** *** Every plan has a payload that conforms *)

Module WriterFacts.
Import JSON.

Lemma hex_value_hex_digit (n : N) :
  (n < 16)%N -> hex_value (hex_digit n) = Some n.
Proof.
  intros H.
  destruct n as [|p]; [reflexivity|].
  destruct p as [p|p|]; [| |reflexivity];
    (destruct p as [p|p|]; [| |reflexivity]);
    (destruct p as [p|p|]; [| |reflexivity]);
    (destruct p as [p|p|]; [lia | lia | reflexivity]).
Qed.

Lemma parse_chars_escape (c : N) (r : JSString) :
  parse_chars (escape_char c ++ r) =
  match parse_chars r with
  | Some (cs, rest) => Some (c :: cs, rest)
  | None => None
  end.
Proof.
  unfold escape_char.
  destruct (c =? dquote)%N eqn:Eq.
  { apply N.eqb_eq in Eq. subst c. reflexivity. }
  destruct (c =? cu "\")%N eqn:Eb.
  { apply N.eqb_eq in Eb. subst c. reflexivity. }
  destruct (c <? 32)%N eqn:El.
  - apply N.ltb_lt in El.
    cbn [app parse_chars].
    change (cu "\" =? dquote)%N with false.
    change (cu "\" =? cu "\")%N with true.
    change (cu "u" =? cu "u")%N with true.
    change (hex_value (cu "0")) with (Some 0%N).
    cbv beta iota.
    rewrite !hex_value_hex_digit.
    + replace (0 * 4096 + 0 * 256 + c / 16 * 16 + c mod 16)%N with c; [reflexivity|].
      pose proof (N.div_mod c 16). lia.
    + apply N.mod_lt. discriminate.
    + apply N.Div0.div_lt_upper_bound. lia.
  - cbn [app parse_chars]. rewrite Eq, Eb, El. reflexivity.
Qed.

Lemma parse_chars_write (s rest : JSString) :
  parse_chars (write_chars s rest) = Some (s, rest).
Proof.
  induction s as [|c s IH]; [reflexivity|].
  cbn [write_chars]. rewrite parse_chars_escape, IH. reflexivity.
Qed.

Lemma skip_ws_stop (c : N) (r : JSString) :
  is_ws c = false -> skip_ws (c :: r) = c :: r.
Proof. intros H. simpl. rewrite H. reflexivity. Qed.

Lemma parse_string (f : nat) (s rest : JSString) :
  parse_value (S f) (write_string s rest) = POk (JString s) rest.
Proof.
  unfold write_string. cbn [parse_value].
  rewrite skip_ws_stop by reflexivity.
  change (dquote =? cu "{")%N with false.
  change (dquote =? cu "[")%N with false.
  change (dquote =? dquote)%N with true.
  cbv beta iota. rewrite parse_chars_write. reflexivity.
Qed.

(** A member whose value is a string, read by the loop over members. *)
Lemma parse_member (f : nat) (k : string) (v : JSString) (c : N) (rest : JSString)
      (acc : list (JSString * JSValue)) :
  is_ws c = false ->
  parse_members (S (S f)) (write_member k v (c :: rest)) acc =
  if (c =? cu ",")%N then
    parse_members (S f) rest (set_prop (js k) (JString v) acc)
  else if (c =? cu "}")%N then
    POk (JObject (set_prop (js k) (JString v) acc)) rest
  else PSyntaxError.
Proof.
  intros Hc. unfold write_member.
  unfold write_string at 1.
  cbn [parse_members].
  rewrite skip_ws_stop by reflexivity.
  change (dquote =? dquote)%N with true. cbv beta iota.
  rewrite parse_chars_write.
  rewrite skip_ws_stop by reflexivity.
  change (cu ":" =? cu ":")%N with true. cbv beta iota.
  rewrite parse_string.
  rewrite skip_ws_stop by exact Hc.
  reflexivity.
Qed.

Lemma write_member_head (k : string) (v rest : JSString) :
  write_member k v rest =
  dquote :: write_chars (js k) (cu ":" :: write_string v rest).
Proof. reflexivity. Qed.

Lemma parse_step (f : nat) (st : PlanStep) (rest : JSString) :
  parse_value (5 + f) (write_step st rest) = POk (step_value st) rest.
Proof.
  unfold write_step.
  change (5 + f) with (S (S (S (S (S f))))).
  cbn [parse_value].
  rewrite skip_ws_stop by reflexivity.
  change (cu "{" =? cu "{")%N with true. cbv beta iota.
  rewrite (write_member_head "title").
  rewrite skip_ws_stop by reflexivity.
  change (dquote =? cu "}")%N with false. cbv beta iota.
  rewrite <- (write_member_head "title").
  rewrite parse_member by reflexivity.
  change (cu "," =? cu ",")%N with true. cbv beta iota.
  rewrite parse_member by reflexivity.
  change (cu "," =? cu ",")%N with true. cbv beta iota.
  rewrite parse_member by reflexivity.
  reflexivity.
Qed.

Lemma parse_more_steps (sts : list PlanStep) :
  forall (f : nat) (st : PlanStep) (rest : JSString) (acc : list JSValue),
    parse_elements (6 + List.length sts + f)
                   (write_step st (write_more_steps sts rest)) acc =
    POk (JArray (acc ++ step_value st :: map step_value sts)) rest.
Proof.
  induction sts as [|st' sts IH]; intros f st rest acc.
  - change (6 + List.length (@nil PlanStep) + f) with (S (5 + f)).
    cbn [parse_elements write_more_steps]. rewrite parse_step.
    rewrite skip_ws_stop by reflexivity. reflexivity.
  - change (6 + List.length (st' :: sts) + f)
      with (S (5 + (S (List.length sts) + f))).
    cbn [parse_elements write_more_steps]. rewrite parse_step.
    rewrite skip_ws_stop by reflexivity.
    change (cu "," =? cu ",")%N with true. cbv beta iota.
    change (5 + (S (List.length sts) + f)) with (6 + List.length sts + f).
    rewrite IH, <- app_assoc. reflexivity.
Qed.

Lemma write_step_head (st : PlanStep) (rest : JSString) :
  exists tail, write_step st rest = cu "{" :: tail.
Proof. eexists. reflexivity. Qed.

Lemma parse_steps (sts : list PlanStep) (f : nat) (rest : JSString) :
  parse_value (7 + List.length sts + f) (write_steps sts rest) =
  POk (JArray (map step_value sts)) rest.
Proof.
  change (7 + List.length sts + f) with (S (6 + List.length sts + f)).
  unfold write_steps. cbn [parse_value].
  rewrite skip_ws_stop by reflexivity.
  change (cu "[" =? cu "{")%N with false.
  change (cu "[" =? cu "[")%N with true. cbv beta iota.
  destruct sts as [|st sts].
  - rewrite skip_ws_stop by reflexivity. reflexivity.
  - destruct (write_step_head st (write_more_steps sts rest)) as (tail & E).
    rewrite E. rewrite skip_ws_stop by reflexivity.
    change (cu "{" =? cu "]")%N with false. cbv beta iota.
    rewrite <- E.
    replace (6 + List.length (st :: sts) + f)
      with (6 + List.length sts + S f) by (simpl; lia).
    rewrite parse_more_steps. reflexivity.
Qed.

Lemma parse_written_plan (plan : PlannerResponse) (f : nat) :
  parse_value (9 + List.length (steps plan) + f) (write_plan plan) =
  POk (plan_value plan) [].
Proof.
  change (9 + List.length (steps plan) + f)
    with (S (S (7 + List.length (steps plan) + f))).
  unfold write_plan, write_string. cbn [parse_value].
  rewrite skip_ws_stop by reflexivity.
  change (cu "{" =? cu "{")%N with true. cbv beta iota.
  rewrite skip_ws_stop by reflexivity.
  change (dquote =? cu "}")%N with false. cbv beta iota.
  cbn [parse_members].
  rewrite skip_ws_stop by reflexivity.
  change (dquote =? dquote)%N with true. cbv beta iota.
  rewrite parse_chars_write.
  rewrite skip_ws_stop by reflexivity.
  change (cu ":" =? cu ":")%N with true. cbv beta iota.
  rewrite parse_steps. reflexivity.
Qed.

Lemma escape_char_length (c : N) : 1 <= List.length (escape_char c).
Proof.
  unfold escape_char.
  destruct (c =? dquote)%N; [simpl; lia|].
  destruct (c =? cu "\")%N; [simpl; lia|].
  destruct (c <? 32)%N; simpl; lia.
Qed.

Lemma write_chars_length (s rest : JSString) :
  List.length rest < List.length (write_chars s rest).
Proof.
  induction s as [|c s IH]; simpl; [lia|].
  rewrite length_app. pose proof (escape_char_length c). lia.
Qed.

Lemma write_step_length (st : PlanStep) (rest : JSString) :
  List.length rest < List.length (write_step st rest).
Proof.
  unfold write_step, write_member, write_string.
  repeat match goal with
         | |- context [write_chars ?s ?r] =>
             lazymatch goal with
             | _ : List.length r < List.length (write_chars s r) |- _ => fail
             | _ => pose proof (write_chars_length s r)
             end
         end.
  simpl in *. lia.
Qed.

Lemma write_more_steps_length (sts : list PlanStep) (rest : JSString) :
  List.length sts <= List.length (write_more_steps sts rest).
Proof.
  induction sts as [|st sts IH]; cbn [write_more_steps List.length]; [lia|].
  pose proof (write_step_length st (write_more_steps sts rest)). lia.
Qed.

Lemma write_plan_length (plan : PlannerResponse) :
  List.length (steps plan) + 4 <= List.length (write_plan plan).
Proof.
  unfold write_plan, write_string, write_steps.
  pose proof (write_chars_length (js "steps")
                (cu ":" :: cu "[" ::
                 match steps plan with
                 | [] => [cu "]"; cu "}"]
                 | st :: sts' => write_step st (write_more_steps sts' [cu "}"])
                 end)) as L.
  simpl List.length at 1 in L. simpl List.length at 2.
  destruct (steps plan) as [|st sts].
  - simpl in *. lia.
  - pose proof (write_step_length st (write_more_steps sts [cu "}"])).
    pose proof (write_more_steps_length sts [cu "}"]).
    simpl in *. lia.
Qed.

(** The text written for a plan is JSON, and its value is the value of
    the plan. *)
Lemma parse_write_plan (plan : PlannerResponse) :
  JSON.parse (write_plan plan) = Some (plan_value plan).
Proof.
  unfold JSON.parse.
  rewrite (proj1 (JSONFacts.parser_fuel_monotone (9 + List.length (steps plan) + 0))
             (write_plan plan) (POk (plan_value plan) [])
             (fuel_for (write_plan plan))).
  - reflexivity.
  - apply parse_written_plan.
  - discriminate.
  - unfold fuel_for. pose proof (write_plan_length plan). lia.
Qed.

Lemma as_steps_step_values (sts : list PlanStep) :
  as_steps (map step_value sts) = Some sts.
Proof.
  induction sts as [|[a b c] sts IH]; [reflexivity|].
  simpl map. cbn [as_steps]. rewrite IH. reflexivity.
Qed.

(** The value of a plan conforms to the schema and is read as the plan. *)
Lemma as_plan_plan_value (plan : PlannerResponse) :
  as_plan (plan_value plan) = Some plan.
Proof.
  destruct plan as [sts]. unfold plan_value, as_plan.
  cbn [get_prop steps]. change (jsstring_eqb (js "steps") (js "steps")) with true.
  cbv beta iota. rewrite as_steps_step_values. reflexivity.
Qed.

Lemma plan_value_conforms (plan : PlannerResponse) :
  conforms (plan_value plan) (map step_value (steps plan)).
Proof.
  exists [(js "steps", JArray (map step_value (steps plan)))].
  split; [reflexivity|]. split; [reflexivity|].
  apply Forall_forall. intros so Hin. apply in_map_iff in Hin as ([a b c] & <- & _).
  exists (mkStep a b c). apply as_step_spec. reflexivity.
Qed.

End WriterFacts.

(** Every plan, with any number of steps and any strings in them, has a
    payload that conforms, and [generateExecutionPlan] gives that plan
    back. *)
Lemma written_plan_is_read_back
      (plan : PlannerResponse) (task : JSString) (lang : Lang) (tr : list Event) :
  JSON.parse (write_plan plan) = Some (plan_value plan) /\
  conforms (plan_value plan) (map step_value (steps plan)) /\
  fst (generateExecutionPlan task lang (mock_body (write_plan plan)) tr)
    = Normal (plan_value plan) /\
  as_plan (plan_value plan) = Some plan.
Proof.
  split; [apply WriterFacts.parse_write_plan|].
  split; [apply WriterFacts.plan_value_conforms|].
  split; [|apply WriterFacts.as_plan_plan_value].
  rewrite (@valid_json_is_returned_unchecked_core
             (mock_body (write_plan plan)) tr task lang
             (write_plan plan) (plan_value plan)).
  - reflexivity.
  - exists (js "test-key"). split; [reflexivity | discriminate].
  - reflexivity.
  - apply WriterFacts.parse_write_plan.
Qed.

(** *** Faults and text that is not JSON *)

(** C4, as the code has it: when the call to the service is rejected, or
    the body of the response is a text that is not empty and is not valid
    JSON, [generateExecutionPlan] returns [null] (its promise is fulfilled,
    not rejected) and writes one line to the console, with what was
    thrown. *)
Theorem fault_or_invalid_json_gives_null_and_log
        (p : Process) (tr : list Event) (task : JSString) (lang : Lang) :
  credential_present p ->
  (exists e, service_answer p tr task lang = Reject e) \/
  (exists body,
      replies_with p tr task lang (Some body) /\
      body <> [] /\ JSON.parse body = None) ->
  exists e,
    generateExecutionPlan task lang p tr =
      (Normal JNull, tr ++ [NetworkCall (request_for task lang); log_failure e]) /\
    log_count (emitted task lang p tr) = 1.
Proof.
  intros Hc Hcase.
  assert (exists e,
             generateExecutionPlan task lang p tr =
               (Normal JNull,
                tr ++ [NetworkCall (request_for task lang); log_failure e]))
    as (e & E).
  { destruct Hcase as [(e & He) | (body & Hr & Hne & Hv)].
    - exists e. on_path. reflexivity.
    - exists SyntaxError. on_path.
      destruct body as [|c body]; [congruence|]. rewrite Hv. reflexivity. }
  exists e. split; [exact E|].
  unfold emitted. rewrite E. simpl. rewrite skipn_length_app. reflexivity.
Qed.

Lemma fault_or_invalid_json_gives_null_and_log_witness :
  (exists e,
      generateExecutionPlan (js "Add a login page") en
          (mock (Some (js "test-key")) (Reject (RemoteFault (js "fetch failed")))) [] =
        (Normal JNull,
         [] ++ [NetworkCall (request_for (js "Add a login page") en); log_failure e]) /\
      log_count (emitted (js "Add a login page") en
                   (mock (Some (js "test-key"))
                         (Reject (RemoteFault (js "fetch failed")))) []) = 1) /\
  (exists e,
      generateExecutionPlan (js "Add a login page") en (mock_body (js "not json")) [] =
        (Normal JNull,
         [] ++ [NetworkCall (request_for (js "Add a login page") en); log_failure e]) /\
      log_count (emitted (js "Add a login page") en (mock_body (js "not json")) []) = 1).
Proof.
  split.
  - apply (@fault_or_invalid_json_gives_null_and_log
             (mock (Some (js "test-key")) (Reject (RemoteFault (js "fetch failed"))))
             [] (js "Add a login page") en).
    + exists (js "test-key"). split; [reflexivity | discriminate].
    + left. exists (RemoteFault (js "fetch failed")). reflexivity.
  - apply (@fault_or_invalid_json_gives_null_and_log
             (mock_body (js "not json")) [] (js "Add a login page") en).
    + exists (js "test-key"). split; [reflexivity | discriminate].
    + right. exists (js "not json").
      split; [reflexivity|]. split; [discriminate | reflexivity].
Defined.

(** C4 fails at the empty body: the empty string is a text that is not
    valid JSON, the result is [null], and nothing is written to the
    console. *)
Lemma empty_body_is_not_logged :
  JSON.parse (js "") = None /\
  generateExecutionPlan (js "Add a login page") en (mock_body (js "")) [] =
    (Normal JNull, [NetworkCall (request_for (js "Add a login page") en)]) /\
  log_count (emitted (js "Add a login page") en (mock_body (js "")) []) = 0.
Proof. repeat split. Qed.

(** *** The console and the network on each path *)

Lemma emitted_paths (task : JSString) (lang : Lang) (p : Process) (tr : list Event) :
  emitted task lang p tr =
  if string_truthy (apiKey p) then
    match service_answer p tr task lang with
    | Reject e => [NetworkCall (request_for task lang); log_failure e]
    | Resolve response =>
        match text response with
        | None => [NetworkCall (request_for task lang)]
        | Some t =>
            if string_truthy t then
              match JSON.parse t with
              | Some v => [NetworkCall (request_for task lang)]
              | None => [NetworkCall (request_for task lang); log_failure SyntaxError]
              end
            else [NetworkCall (request_for task lang)]
        end
    end
  else [log_missing_key].
Proof.
  unfold emitted. rewrite generateExecutionPlan_paths.
  repeat match goal with
         | |- context [match ?x with _ => _ end] => destruct x
         end;
    simpl; apply skipn_length_app.
Qed.

Ltac on_emitted :=
  rewrite emitted_paths;
  repeat match goal with
         | H : credential_present _ |- _ =>
             apply credential_present_apiKey in H; rewrite H
         | H : credential_absent _ |- _ =>
             apply credential_absent_apiKey in H; rewrite H
         | H : replies_with _ _ _ _ _ |- _ =>
             unfold replies_with in H; rewrite H
         | H : service_answer _ _ _ _ = _ |- _ => rewrite H
         end;
  cbn [text string_truthy].

(** C5, as the code has it: a line is written to the console when the
    credential is missing, when the call to the service is rejected and
    when the body is not empty and cannot be parsed; when the body is empty
    or absent, [null] is returned and nothing is written.  On every path
    the events are lines on the console and calls to the service, at most
    one of each. *)
Theorem failure_paths_and_their_events
        (p : Process) (tr : list Event) (task : JSString) (lang : Lang) :
  (credential_absent p ->
   emitted task lang p tr = [log_missing_key]) /\
  (credential_present p ->
   forall e, service_answer p tr task lang = Reject e ->
   emitted task lang p tr = [NetworkCall (request_for task lang); log_failure e]) /\
  (credential_present p ->
   forall body, replies_with p tr task lang (Some body) ->
   body <> [] -> JSON.parse body = None ->
   emitted task lang p tr =
     [NetworkCall (request_for task lang); log_failure SyntaxError]) /\
  (credential_present p ->
   forall body, replies_with p tr task lang body ->
   body = None \/ body = Some [] ->
   fst (generateExecutionPlan task lang p tr) = Normal JNull /\
   emitted task lang p tr = [NetworkCall (request_for task lang)]) /\
  snd (generateExecutionPlan task lang p tr) = tr ++ emitted task lang p tr /\
  call_count (emitted task lang p tr) <= 1 /\
  log_count (emitted task lang p tr) <= 1.
Proof.
  split; [|split; [|split; [|split; [|split; [|split]]]]].
  - intros Hc. on_emitted. reflexivity.
  - intros Hc e He. on_emitted. reflexivity.
  - intros Hc body Hr Hne Hv. on_emitted.
    destruct body as [|c body]; [congruence|]. rewrite Hv. reflexivity.
  - intros Hc body Hr Hb. split.
    + pose proof Hc as Hc'. on_path. destruct Hb as [-> | ->]; reflexivity.
    + on_emitted. destruct Hb as [-> | ->]; reflexivity.
  - apply trace_extends.
  - rewrite emitted_paths.
    repeat match goal with
           | |- context [match ?x with _ => _ end] => destruct x
           end; simpl; unfold call_count; simpl; lia.
  - rewrite emitted_paths.
    repeat match goal with
           | |- context [match ?x with _ => _ end] => destruct x
           end; simpl; unfold log_count; simpl; lia.
Qed.

(** C5 fails on the path of the empty response body: with an empty text,
    and with no text, the result is [null], the one event is the call to
    the service, and the console has no line. *)
Lemma empty_response_leaves_console_empty :
  (fst (generateExecutionPlan (js "Add a login page") zh (mock_body []) []) = Normal JNull /\
   emitted (js "Add a login page") zh (mock_body []) []
     = [NetworkCall (request_for (js "Add a login page") zh)] /\
   log_count (snd (generateExecutionPlan (js "Add a login page") zh (mock_body []) [])) = 0) /\
  (fst (generateExecutionPlan (js "Add a login page") zh mock_no_text []) = Normal JNull /\
   emitted (js "Add a login page") zh mock_no_text []
     = [NetworkCall (request_for (js "Add a login page") zh)] /\
   log_count (snd (generateExecutionPlan (js "Add a login page") zh mock_no_text [])) = 0).
Proof. repeat split. Qed.

(** *** One call to the service *)

(** C6: with the credential present, a call to [generateExecutionPlan]
    makes exactly one call to the service, whatever the service answers:
    the transport has one more request on record, the request of this
    call. *)
Theorem one_network_call_per_invocation
        (p : Process) (tr : list Event) (task : JSString) (lang : Lang) :
  credential_present p ->
  requests_of (snd (generateExecutionPlan task lang p tr))
    = requests_of tr ++ [request_for task lang] /\
  call_count (emitted task lang p tr) = 1 /\
  call_count (snd (generateExecutionPlan task lang p tr)) = call_count tr + 1.
Proof.
  intros Hc.
  assert (E : requests_of (emitted task lang p tr) = [request_for task lang]).
  { on_emitted.
    repeat match goal with
           | |- context [match ?x with _ => _ end] => destruct x
           end; reflexivity. }
  rewrite trace_extends. unfold call_count.
  rewrite requests_of_app, E, length_app. repeat split.
Qed.

Lemma one_network_call_per_invocation_witness :
  requests_of (snd (generateExecutionPlan (js "Add a login page") en
                      (mock_body scenarioA_body) []))
    = requests_of [] ++ [request_for (js "Add a login page") en] /\
  call_count (emitted (js "Add a login page") en (mock_body scenarioA_body) []) = 1 /\
  call_count (snd (generateExecutionPlan (js "Add a login page") en
                     (mock_body scenarioA_body) [])) = call_count [] + 1.
Proof.
  apply (@one_network_call_per_invocation
           (mock_body scenarioA_body) [] (js "Add a login page") en).
  exists (js "test-key"). split; [reflexivity | discriminate].
Defined.

(** *** The request *)

Lemma responseSchema_literal_constrains : constrains_to_plan responseSchema_literal.
Proof.
  unfold constrains_to_plan.
  split; [reflexivity|]. split; [reflexivity|].
  eexists. eexists.
  split; [reflexivity|]. split; [reflexivity|]. split; [reflexivity|].
  split; [reflexivity|]. split; [reflexivity|].
  intros f [<- | [<- | [<- | []]]];
    (split; [eexists; split; reflexivity | reflexivity]).
Qed.

(** C7: for every task description and language, the request that
    [generateExecutionPlan] sends asks for JSON and carries the schema of
    an object with the one field [steps], an array of objects with the
    fields [title], [promptStrategy] and [risk], each a string and each
    required; every request the function sends is that request, and it
    sends it whenever the credential is present. *)
Theorem request_carries_plan_schema
        (p : Process) (tr : list Event) (task : JSString) (lang : Lang) :
  constrains_to_plan (responseSchema (config (request_for task lang))) /\
  responseMimeType (config (request_for task lang)) = js "application/json" /\
  (forall request,
      In (NetworkCall request) (emitted task lang p tr) ->
      request = request_for task lang) /\
  (credential_present p ->
   In (NetworkCall (request_for task lang)) (emitted task lang p tr)).
Proof.
  split; [exact responseSchema_literal_constrains|].
  split; [reflexivity|]. split.
  - intros request. rewrite emitted_paths.
    repeat match goal with
           | |- context [match ?x with _ => _ end] => destruct x
           end; unfold log_failure, log_missing_key; simpl; intuition congruence.
  - intros Hc. on_emitted.
    repeat match goal with
           | |- context [match ?x with _ => _ end] => destruct x
           end; simpl; auto.
Qed.

(** ** The planner tool *)

Section PlannerToolFacts.
Import PlannerTool.

Lemma handlePlan_begin_started (lang : Lang) (s s' : State) (r : Request) :
  handlePlan_begin lang s = (s', Some r) ->
  loading s' = true /\ plan s' = JNull /\ error s' = None /\
  input s' = input s /\ r = mkRequest (input s) lang.
Proof.
  unfold handlePlan_begin.
  destruct (negb (string_truthy (trim (input s)))); intros H; inversion H; subst.
  simpl. repeat split.
Qed.

Lemma handlePlan_begin_ignored (lang : Lang) (s s' : State) :
  handlePlan_begin lang s = (s', None) -> s' = s.
Proof.
  unfold handlePlan_begin.
  destruct (negb (string_truthy (trim (input s)))); intros H; inversion H; subst.
  reflexivity.
Qed.

Lemma handlePlan_resume_settles (lang : Lang) (settled : Completion JSValue) (s : State) :
  plan s = JNull -> error s = None ->
  loading (handlePlan_resume lang settled s) = false /\
  plan_or_error (handlePlan_resume lang settled s).
Proof.
  intros Hp He. unfold handlePlan_resume, plan_or_error.
  destruct settled as [result | e]; [destruct (truthy result)|]; simpl; auto.
Qed.

Lemma handlePlan_begin_from_now (lang : Lang) (s : State) :
  handlePlan_begin_from s lang s = handlePlan_begin lang s.
Proof. reflexivity. Qed.

Lemma click_from_now (c : Component) : click_from (cells c) c = click c.
Proof. reflexivity. Qed.

Lemma handlePlan_begin_from_started
      (seen : State) (lang : Lang) (s s' : State) (r : Request) :
  handlePlan_begin_from seen lang s = (s', Some r) ->
  loading s' = true /\ plan s' = JNull /\ error s' = None /\
  input s' = input s /\ r = mkRequest (input seen) lang.
Proof.
  unfold handlePlan_begin_from.
  destruct (negb (string_truthy (trim (input seen)))); intros H; inversion H; subst.
  simpl. repeat split.
Qed.

Lemma handlePlan_begin_from_ignored (seen : State) (lang : Lang) (s s' : State) :
  handlePlan_begin_from seen lang s = (s', None) -> s' = s.
Proof.
  unfold handlePlan_begin_from.
  destruct (negb (string_truthy (trim (input seen)))); intros H; inversion H; subst.
  reflexivity.
Qed.

Lemma component_invariant_plan_or_error (c : Component) :
  component_invariant c -> plan_or_error (cells c).
Proof.
  unfold component_invariant, plan_or_error.
  destruct (in_flight c) as [|r [|r' rest]]; [tauto | | contradiction].
  intros (_ & Hp & _). left. exact Hp.
Qed.

Lemma step_in_task_preserves_invariant (a : Action) (m m' : Mounted) :
  mounted_invariant m -> click_sees_loading a m -> step a m m' ->
  mounted_invariant m'.
Proof.
  intros [Hinv Hshown] Hsee Hstep.
  destruct Hstep as [m l | m v | m Hb | m before after r settled Hf].
  - split; [exact Hinv|]. simpl. apply component_invariant_plan_or_error. exact Hinv.
  - split; [|exact Hshown].
    unfold component_invariant in *. simpl.
    destruct (in_flight (now m)) as [|r [|r' rest]]; exact Hinv.
  - split; [|exact Hshown]. simpl in Hsee.
    unfold button_disabled in Hb. apply orb_false_iff in Hb as [Hl _].
    rewrite Hsee in Hl.
    unfold component_invariant in *. unfold clicked, click_from. simpl.
    destruct (in_flight (now m)) as [|r [|r' rest]].
    + destruct Hinv as [_ Hpe].
      destruct (handlePlan_begin_from (shown m) (lang_prop (now m)) (cells (now m)))
        as [s' [r|]] eqn:E; simpl.
      * apply handlePlan_begin_from_started in E. tauto.
      * apply handlePlan_begin_from_ignored in E. subst s'. auto.
    + destruct Hinv as [Hl' _]. congruence.
    + contradiction.
  - split; [|exact Hshown].
    unfold component_invariant in *. rewrite Hf in Hinv. simpl.
    destruct before as [|b before]; simpl in Hinv.
    + destruct after as [|a after]; [|contradiction].
      destruct Hinv as (_ & Hp & He). simpl.
      apply handlePlan_resume_settles; assumption.
    + destruct before; simpl in Hinv; contradiction.
Qed.

Lemma in_tasks_invariant (m : Mounted) :
  reachable_in_tasks m -> mounted_invariant m.
Proof.
  induction 1 as [l | a m m' _ IH Hsee Hstep].
  - unfold mounted_invariant, component_invariant, plan_or_error. simpl. auto.
  - eapply step_in_task_preserves_invariant; eassumption.
Qed.

Lemma in_tasks_reachable (m : Mounted) : reachable_in_tasks m -> reachable m.
Proof.
  induction 1 as [l | a m m' _ IH _ Hstep].
  - apply reach_mount.
  - eapply reach_step; eassumption.
Qed.

(** Whatever the clicks, [loading] is on only while a request is in
    flight. *)
Lemma idle_is_not_loading (m : Mounted) :
  reachable m -> in_flight (now m) = [] -> loading (cells (now m)) = false.
Proof.
  induction 1 as [l | a m m' _ IH Hstep]; [reflexivity|].
  destruct Hstep as [m l | m v | m Hb | m before after r settled Hf]; simpl.
  - exact IH.
  - exact IH.
  - unfold click_from.
    destruct (handlePlan_begin_from (shown m) (lang_prop (now m)) (cells (now m)))
      as [s' [r|]] eqn:E; simpl.
    + intros H. apply app_eq_nil in H as [_ H]. discriminate.
    + rewrite app_nil_r. apply handlePlan_begin_from_ignored in E. subst s'. exact IH.
  - intros _. unfold handlePlan_resume.
    destruct settled as [v | e]; [destruct (truthy v)|]; reflexivity.
Qed.

Lemma typed_mounted_in_tasks : reachable_in_tasks typed_mounted.
Proof.
  apply (@in_tasks_step (Render en)
           (changed (js "Add a login page") (first_render en)) typed_mounted).
  - apply (@in_tasks_step (Change (js "Add a login page")) (first_render en)
             (changed (js "Add a login page") (first_render en))).
    + apply in_tasks_mount.
    + exact I.
    + apply step_change.
  - exact I.
  - apply step_render.
Qed.

Lemma waiting_mounted_in_tasks : reachable_in_tasks waiting_mounted.
Proof.
  apply (@in_tasks_step (Render en) (clicked typed_mounted) waiting_mounted).
  - apply (@in_tasks_step Click typed_mounted (clicked typed_mounted)).
    + exact typed_mounted_in_tasks.
    + reflexivity.
    + apply step_click. reflexivity.
  - exact I.
  - apply step_render.
Qed.

Lemma settled_mounted_in_tasks : reachable_in_tasks settled_mounted.
Proof.
  apply (@in_tasks_step (Render en)
           (resumed [] [] (mkRequest (js "Add a login page") en)
                    (Normal scenarioA_value) waiting_mounted)
           settled_mounted).
  - apply (@in_tasks_step
             (Settle [] [] (mkRequest (js "Add a login page") en) (Normal scenarioA_value))
             waiting_mounted).
    + exact waiting_mounted_in_tasks.
    + exact I.
    + apply step_settle. reflexivity.
  - exact I.
  - apply step_render.
Qed.

Lemma clicked_twice_reachable : reachable clicked_twice.
Proof.
  apply (@reach_step Click (clicked typed_mounted) clicked_twice).
  - apply (@reach_step Click typed_mounted (clicked typed_mounted)).
    + apply in_tasks_reachable. exact typed_mounted_in_tasks.
    + apply step_click. reflexivity.
  - apply step_click. reflexivity.
Qed.

(** C8, as the code has it: when every click meets a button rendered with
    the [loading] of now (the component has been rendered since the last
    request began or settled, as between two clicks of a user), at most one
    request is in flight; while one is in flight [loading] is on, every
    render gives a disabled button, and the button of a render that read
    that [loading] is disabled; and a click that starts a request starts
    it with none in flight and sets [loading], and the plan and the error
    to [null], so that the next render shows neither. *)
Theorem request_in_flight_disables_button_and_clears (m : Mounted) :
  reachable_in_tasks m ->
  List.length (in_flight (now m)) <= 1 /\
  (in_flight (now m) <> [] ->
   loading (cells (now m)) = true /\
   (forall l, button_disabled (shown (rendered l m)) = true) /\
   (loading (shown m) = loading (cells (now m)) ->
    button_disabled (shown m) = true)) /\
  (forall m',
      step Click m m' ->
      in_flight (now m') <> in_flight (now m) ->
      (loading (shown m) = loading (cells (now m)) -> in_flight (now m) = []) /\
      loading (cells (now m')) = true /\
      plan (cells (now m')) = JNull /\ error (cells (now m')) = None /\
      (forall l,
          shows_plan (shown (rendered l m')) = false /\
          shows_error (shown (rendered l m')) = false)).
Proof.
  intros Hreach. destruct (in_tasks_invariant Hreach) as [Hinv _].
  unfold component_invariant in Hinv.
  split; [|split].
  - destruct (in_flight (now m)) as [|r [|r' rest]]; simpl; [lia | lia | contradiction].
  - intros Hne.
    destruct (in_flight (now m)) as [|r [|r' rest]]; [congruence | | contradiction].
    destruct Hinv as (Hl & _). split; [exact Hl|]. split.
    + intros l. unfold button_disabled. simpl. rewrite Hl. reflexivity.
    + intros Hsee. unfold button_disabled. rewrite Hsee, Hl. reflexivity.
  - intros m' Hstep Hnew. inversion Hstep as [| | m0 Hb |]; subst. clear Hstep.
    unfold clicked, click_from in *. simpl in *.
    destruct (handlePlan_begin_from (shown m) (lang_prop (now m)) (cells (now m)))
      as [s' [r|]] eqn:E; simpl in *.
    + apply handlePlan_begin_from_started in E as (Hl & Hp & He & _).
      split.
      * intros Hsee. unfold button_disabled in Hb.
        apply orb_false_iff in Hb as [Hb _]. rewrite Hsee in Hb.
        destruct (in_flight (now m)) as [|r0 [|r1 rest]];
          [reflexivity | | contradiction].
        destruct Hinv as (Hl' & _). congruence.
      * unfold shows_plan, shows_error. rewrite Hp, He. simpl. repeat split; assumption.
    + rewrite app_nil_r in Hnew. congruence.
Qed.

Lemma request_in_flight_disables_button_and_clears_witness :
  (in_flight (now waiting_mounted) <> [] /\
   loading (cells (now waiting_mounted)) = true /\
   button_disabled (shown waiting_mounted) = true) /\
  (step Click typed_mounted (clicked typed_mounted) /\
   in_flight (now (clicked typed_mounted)) <> in_flight (now typed_mounted) /\
   in_flight (now typed_mounted) = [] /\
   plan (cells (now (clicked typed_mounted))) = JNull /\
   error (cells (now (clicked typed_mounted))) = None).
Proof.
  split.
  - destruct (@request_in_flight_disables_button_and_clears
                waiting_mounted waiting_mounted_in_tasks) as (_ & H & _).
    assert (Hne : in_flight (now waiting_mounted) <> []) by discriminate.
    destruct (H Hne) as (Hl & _ & Hb).
    split; [exact Hne|]. split; [exact Hl|]. apply Hb. reflexivity.
  - destruct (@request_in_flight_disables_button_and_clears
                typed_mounted typed_mounted_in_tasks) as (_ & _ & H).
    assert (Hs : step Click typed_mounted (clicked typed_mounted)).
    { apply step_click. reflexivity. }
    assert (Hn : in_flight (now (clicked typed_mounted)) <> in_flight (now typed_mounted))
      by discriminate.
    destruct (H _ Hs Hn) as (H0 & _ & Hp & He & _).
    split; [exact Hs|]. split; [exact Hn|]. split; [apply H0; reflexivity|].
    split; assumption.
Defined.

(** C8 fails for two clicks on the button of one render: the component
    is not rendered between them, the second click meets the enabled
    button and the handler of the first, and [handlePlan] does not look at
    [loading]; two requests are in flight, and the button on the page is
    enabled while they are. *)
Lemma two_clicks_on_one_render_start_two_requests :
  PlannerTool.reachable clicked_twice /\
  List.length (in_flight (now (clicked typed_mounted))) = 1 /\
  button_disabled (shown (clicked typed_mounted)) = false /\
  List.length (in_flight (now clicked_twice)) = 2 /\
  button_disabled (shown clicked_twice) = false.
Proof.
  split; [exact clicked_twice_reachable|]. repeat split.
Qed.

(** C9: when the trimmed input is empty, [handlePlan] returns at once: it
    starts no request and leaves the four cells as they were, so a click
    leaves the whole component as it was. *)
Theorem blank_input_starts_nothing
        (lang : Lang) (s : State) (settled : Completion JSValue) :
  trim (input s) = [] ->
  handlePlan_begin lang s = (s, None) /\
  handlePlan lang settled s = s /\
  (forall requests,
      click {| cells := s; lang_prop := lang; in_flight := requests |}
        = {| cells := s; lang_prop := lang; in_flight := requests |}).
Proof.
  intros Ht.
  assert (E : handlePlan_begin lang s = (s, None)).
  { unfold handlePlan_begin. rewrite Ht. reflexivity. }
  split; [exact E|]. split.
  - unfold handlePlan. rewrite E. reflexivity.
  - intros requests. unfold click. simpl. rewrite E. simpl.
    rewrite app_nil_r. reflexivity.
Qed.

Lemma blank_input_starts_nothing_witness :
  handlePlan_begin zh blank_state = (blank_state, None) /\
  handlePlan zh (Normal scenarioA_value) blank_state = blank_state /\
  (forall requests,
      click {| cells := blank_state; lang_prop := zh; in_flight := requests |}
        = {| cells := blank_state; lang_prop := zh; in_flight := requests |}).
Proof.
  apply (@blank_input_starts_nothing zh blank_state (Normal scenarioA_value)).
  reflexivity.
Defined.

(** C10, as the code has it: an execution of [handlePlan] that starts a
    request and runs to its end with no other execution of [handlePlan] in
    between leaves at most one of the plan and the error set, whatever the
    cells were; and when every click meets a button rendered with the
    [loading] of now, the plan and the error are never both set, neither in
    the cells nor in what the last render read, so that a plan and an
    error message are never on display together. *)
Theorem plan_and_error_never_together (m : Mounted) :
  reachable_in_tasks m ->
  plan_or_error (cells (now m)) /\
  plan_or_error (shown m) /\
  shows_plan (shown m) && shows_error (shown m) = false /\
  (forall lang settled,
      plan_or_error (handlePlan lang settled (cells (now m)))) /\
  (forall s lang settled,
      snd (handlePlan_begin lang s) <> None ->
      plan_or_error (handlePlan lang settled s)).
Proof.
  intros Hreach. destruct (in_tasks_invariant Hreach) as [Hinv Hshown].
  pose proof (component_invariant_plan_or_error _ Hinv) as Hpe.
  assert (Hrun : forall s lang settled,
             snd (handlePlan_begin lang s) <> None ->
             plan_or_error (handlePlan lang settled s)).
  { intros s lang settled Hs. unfold handlePlan.
    destruct (handlePlan_begin lang s) as [s1 [r|]] eqn:E; [|simpl in Hs; congruence].
    apply handlePlan_begin_started in E.
    apply handlePlan_resume_settles; tauto. }
  split; [exact Hpe|]. split; [exact Hshown|]. split; [|split; [|exact Hrun]].
  - unfold shows_plan, shows_error.
    destruct Hshown as [-> | ->]; [reflexivity | apply andb_false_r].
  - intros lang settled.
    destruct (snd (handlePlan_begin lang (cells (now m)))) as [r|] eqn:E.
    + apply Hrun. rewrite E. discriminate.
    + unfold handlePlan.
      destruct (handlePlan_begin lang (cells (now m))) as [s1 [r|]] eqn:E1;
        [simpl in E; discriminate|].
      apply handlePlan_begin_ignored in E1. subst s1. exact Hpe.
Qed.

Lemma plan_and_error_never_together_witness :
  plan_or_error (cells (now settled_mounted)) /\
  plan_or_error (shown settled_mounted) /\
  shows_plan (shown settled_mounted) && shows_error (shown settled_mounted) = false /\
  (forall lang settled,
      plan_or_error (handlePlan lang settled (cells (now settled_mounted)))) /\
  (forall s lang settled,
      snd (handlePlan_begin lang s) <> None ->
      plan_or_error (handlePlan lang settled s)).
Proof.
  apply (@plan_and_error_never_together settled_mounted).
  exact settled_mounted_in_tasks.
Defined.

(** C10 fails after two executions of [handlePlan] that overlap: after
    two clicks on the button of one render, the first request is settled
    with a plan and the second with [null]; both executions have come to
    their end, nothing is in flight, and the plan and the error are both
    set and both on display. *)
Lemma overlapping_requests_leave_plan_and_error :
  PlannerTool.reachable settled_twice /\
  in_flight (now settled_twice) = [] /\
  loading (shown settled_twice) = false /\
  plan (shown settled_twice) = scenarioA_value /\
  error (shown settled_twice) = Some (t_error en) /\
  shows_plan (shown settled_twice) && shows_error (shown settled_twice) = true.
Proof.
  split; [|repeat split].
  apply (@reach_step (Render en)
           (resumed [] [] (mkRequest (js "Add a login page") en) (Normal JNull)
              (resumed [] [mkRequest (js "Add a login page") en]
                 (mkRequest (js "Add a login page") en)
                 (Normal scenarioA_value) clicked_twice))
           settled_twice); [|apply step_render].
  apply (@reach_step (Settle [] [] (mkRequest (js "Add a login page") en) (Normal JNull))
           (resumed [] [mkRequest (js "Add a login page") en]
              (mkRequest (js "Add a login page") en)
              (Normal scenarioA_value) clicked_twice));
    [|apply step_settle; reflexivity].
  apply (@reach_step (Settle [] [mkRequest (js "Add a login page") en]
                             (mkRequest (js "Add a login page") en)
                             (Normal scenarioA_value))
           clicked_twice);
    [exact clicked_twice_reachable | apply step_settle; reflexivity].
Qed.

End PlannerToolFacts.

(* ================================================================== *)
(** * Further properties of the code *)
(* ================================================================== *)

(** ** [generateExecutionPlan] *)

(** X1: [generateExecutionPlan] returns a value other than [null] exactly
    when the credential is present, the service resolved with a text, the
    text is valid JSON, and the value of the text is not [null]; the value
    returned is the value of the text. *)
Theorem non_null_result_iff_parsed_body
        (p : Process) (tr : list Event) (task : JSString) (lang : Lang) (v : JSValue) :
  (fst (generateExecutionPlan task lang p tr) = Normal v /\ is_null v = false) <->
  (credential_present p /\
   exists body,
     replies_with p tr task lang (Some body) /\
     JSON.parse body = Some v /\ is_null v = false).
Proof.
  split.
  - rewrite generateExecutionPlan_paths. unfold replies_with.
    destruct (string_truthy (apiKey p)) eqn:Hk.
    + apply credential_present_apiKey in Hk.
      destruct (service_answer p tr task lang) as [[[body|]] | e]; simpl.
      * destruct (string_truthy body).
        -- destruct (JSON.parse body) as [v'|] eqn:Hv; simpl.
           ++ intros [H Hn]. inversion H; subst. split; [exact Hk|].
              exists body. auto.
           ++ intros [H Hn]. inversion H; subst. discriminate.
        -- intros [H Hn]. inversion H; subst. discriminate.
      * intros [H Hn]. inversion H; subst. discriminate.
      * intros [H Hn]. inversion H; subst. discriminate.
    + simpl. intros [H Hn]. inversion H; subst. discriminate.
  - intros (Hc & body & Hr & Hv & Hn).
    rewrite (valid_json_is_returned_unchecked_core Hc Hr Hv). auto.
Qed.

Lemma run_calls_length (calls : list (JSString * Lang)) (p : Process) :
  forall tr, List.length (fst (run_calls calls p tr)) = List.length calls.
Proof.
  induction calls as [|[task lang] calls IH]; intros tr; simpl; [reflexivity|].
  destruct (generateExecutionPlan task lang p tr) as [r tr1].
  specialize (IH tr1). destruct (run_calls calls p tr1) as [rs tr2].
  simpl in *. rewrite IH. reflexivity.
Qed.

(** X2: the promise of [generateExecutionPlan] is fulfilled on every path
    and never rejected: in every process, after every trace, each call of
    every sequence of calls ends with a value. *)
Theorem every_call_is_fulfilled
        (calls : list (JSString * Lang)) (p : Process) (tr : list Event) :
  Forall (fun r => exists v, r = Normal v) (fst (run_calls calls p tr)) /\
  List.length (fst (run_calls calls p tr)) = List.length calls.
Proof.
  split; [|apply run_calls_length].
  revert tr. induction calls as [|[task lang] calls IH]; intros tr; simpl.
  - constructor.
  - destruct (generateExecutionPlan_never_throws task lang p tr) as (v & Hv).
    destruct (generateExecutionPlan task lang p tr) as [r tr1]. simpl in Hv.
    specialize (IH tr1). destruct (run_calls calls p tr1) as [rs tr2].
    simpl in *. constructor; [exists v; exact Hv | exact IH].
Qed.

(** X3: with the credential present, a sequence of calls makes one call
    to the service for each call, in the order of the calls, each with the
    request of its task and language. *)
Theorem calls_make_their_requests_in_order
        (calls : list (JSString * Lang)) (p : Process) (tr : list Event) :
  credential_present p ->
  requests_of (snd (run_calls calls p tr)) = requests_of tr ++ requests_for calls /\
  call_count (snd (run_calls calls p tr)) = call_count tr + List.length calls.
Proof.
  intros Hc.
  assert (E : forall tr0,
             requests_of (snd (run_calls calls p tr0))
               = requests_of tr0 ++ requests_for calls).
  { induction calls as [|[task lang] calls IH]; intros tr0; simpl.
    - rewrite app_nil_r. reflexivity.
    - pose proof (trace_extends task lang p tr0) as Ht.
      assert (Hr : requests_of (emitted task lang p tr0) = [request_for task lang]).
      { pose proof Hc as Hc'. on_emitted.
        repeat match goal with
               | |- context [match ?x with _ => _ end] => destruct x
               end; reflexivity. }
      destruct (generateExecutionPlan task lang p tr0) as [r tr1]. simpl in Ht.
      specialize (IH tr1). destruct (run_calls calls p tr1) as [rs tr2].
      simpl in *. rewrite IH, Ht, requests_of_app, Hr, <- app_assoc. reflexivity. }
  split; [apply E|].
  unfold call_count. rewrite E, length_app. unfold requests_for.
  rewrite length_map. reflexivity.
Qed.

Lemma calls_make_their_requests_in_order_witness :
  requests_of (snd (run_calls [(js "Add a login page", en); (js "Add tests", zh)]
                      (mock_body scenarioA_body) []))
    = requests_of [] ++ requests_for [(js "Add a login page", en); (js "Add tests", zh)] /\
  call_count (snd (run_calls [(js "Add a login page", en); (js "Add tests", zh)]
                     (mock_body scenarioA_body) []))
    = call_count [] + List.length [(js "Add a login page", en); (js "Add tests", zh)].
Proof.
  apply (@calls_make_their_requests_in_order
           [(js "Add a login page", en); (js "Add tests", zh)]
           (mock_body scenarioA_body) []).
  exists (js "test-key"). split; [reflexivity | discriminate].
Defined.

Lemma prompt_parts (task : JSString) (lang : Lang) :
  prompt task lang =
  prompt_before_task ++ task ++ prompt_before_instruction ++
  langInstruction lang ++ prompt_after_instruction.
Proof.
  unfold prompt, prompt_before_task, prompt_before_instruction,
    prompt_after_instruction.
  repeat (rewrite <- ?app_assoc; cbn [app]; f_equal).
Qed.

Lemma instructions_end_differently (a b : JSString) :
  a ++ langInstruction en ++ prompt_after_instruction
    <> b ++ langInstruction zh ++ prompt_after_instruction.
Proof.
  intros H. apply (f_equal (@rev N)) in H.
  rewrite !rev_app_distr in H.
  vm_compute in H. discriminate H.
Qed.

(** X4: the request tells the task and the language apart: two calls
    with different task descriptions or different languages never send the
    same request, since the prompt holds the task as it is and ends
    differently for the two languages. *)
Theorem request_for_is_injective
        (task task' : JSString) (lang lang' : Lang) :
  request_for task lang = request_for task' lang' ->
  task = task' /\ lang = lang'.
Proof.
  intros H. apply (f_equal contents) in H. simpl in H.
  rewrite !prompt_parts in H. apply app_inv_head in H.
  assert (Hl : lang = lang').
  { destruct lang, lang'; try reflexivity; exfalso.
    - rewrite !app_assoc in H. rewrite <- !(app_assoc _ (langInstruction _)) in H.
      exact (instructions_end_differently _ _ H).
    - symmetry in H.
      rewrite !app_assoc in H. rewrite <- !(app_assoc _ (langInstruction _)) in H.
      exact (instructions_end_differently _ _ H). }
  subst lang'. split; [|reflexivity].
  apply app_inv_tail in H. exact H.
Qed.

Lemma request_for_is_injective_witness :
  js "Add a login page" = js "Add a login page" /\ en = en.
Proof.
  apply (@request_for_is_injective (js "Add a login page") (js "Add a login page") en en).
  reflexivity.
Defined.

(** X5: a plan written as compact JSON comes back as it was: when the
    service resolves with the text written for a plan, with any number of
    steps and any strings in them, the value that [generateExecutionPlan]
    returns is read as that plan, and nothing is written to the console. *)
Theorem written_plan_round_trip
        (p : Process) (tr : list Event) (task : JSString) (lang : Lang)
        (plan : PlannerResponse) :
  credential_present p ->
  replies_with p tr task lang (Some (write_plan plan)) ->
  generateExecutionPlan task lang p tr =
    (Normal (plan_value plan), tr ++ [NetworkCall (request_for task lang)]) /\
  as_plan (plan_value plan) = Some plan.
Proof.
  intros Hc Hr.
  rewrite (valid_json_is_returned_unchecked_core Hc Hr (WriterFacts.parse_write_plan plan)).
  split; [reflexivity | apply WriterFacts.as_plan_plan_value].
Qed.

Lemma written_plan_round_trip_witness :
  generateExecutionPlan (js "Add a login page") en
      (mock_body (write_plan scenarioA_plan)) [] =
    (Normal (plan_value scenarioA_plan),
     [] ++ [NetworkCall (request_for (js "Add a login page") en)]) /\
  as_plan (plan_value scenarioA_plan) = Some scenarioA_plan.
Proof.
  apply (@written_plan_round_trip
           (mock_body (write_plan scenarioA_plan)) [] (js "Add a login page") en
           scenarioA_plan).
  - exists (js "test-key"). split; [reflexivity | discriminate].
  - reflexivity.
Defined.

(** ** [handlePlan] *)

Section HandlePlanFacts.
Import PlannerTool.

Lemma trim_truthy_iff_visible (s : JSString) :
  string_truthy (trim s) = has_visible_text s.
Proof.
  unfold has_visible_text.
  destruct (forallb is_js_whitespace s) eqn:E.
  - apply trim_empty_iff in E. rewrite E. reflexivity.
  - destruct (trim s) eqn:Et; [|reflexivity].
    apply trim_empty_iff in Et. congruence.
Qed.

Lemma handlePlan_begin_by_text (lang : Lang) (s : State) :
  handlePlan_begin lang s =
  if has_visible_text (input s) then
    (setPlan JNull (setError None (setLoading true s)), Some (mkRequest (input s) lang))
  else (s, None).
Proof.
  unfold handlePlan_begin. rewrite trim_truthy_iff_visible.
  destruct (has_visible_text (input s)); reflexivity.
Qed.

(** X6: [handlePlan] starts a request exactly when the input holds a code
    unit that is not white space; the request then carries the input as it
    was typed, with the white space around it, and the language of the
    render, and the handler has set [loading] and cleared the plan and the
    error. *)
Theorem request_starts_iff_visible_text (lang : Lang) (s : State) :
  (snd (handlePlan_begin lang s) <> None <-> has_visible_text (input s) = true) /\
  (forall r,
      snd (handlePlan_begin lang s) = Some r ->
      req_task r = input s /\ req_lang r = lang /\
      fst (handlePlan_begin lang s)
        = {| input := input s; plan := JNull; loading := true; error := None |}).
Proof.
  rewrite handlePlan_begin_by_text.
  destruct (has_visible_text (input s)); simpl; split.
  - split; [reflexivity | discriminate].
  - intros r H. inversion H; subst. repeat split.
  - split; [congruence | discriminate].
  - discriminate.
Qed.

(** X7: the button and the handler do not agree on blank input: when the
    input is not empty and holds white space only, and no request is in
    flight, the button is enabled, and a click on it changes nothing and
    starts nothing. *)
Theorem blank_input_enables_idle_button (c : Component) :
  loading (cells c) = false ->
  input (cells c) <> [] ->
  has_visible_text (input (cells c)) = false ->
  button_disabled (cells c) = false /\ click c = c.
Proof.
  intros Hl Hi Hv. split.
  - unfold button_disabled. rewrite Hl.
    destruct (input (cells c)); [congruence | reflexivity].
  - unfold click. rewrite handlePlan_begin_by_text, Hv. simpl.
    rewrite app_nil_r. destruct c; reflexivity.
Qed.

Lemma blank_input_enables_idle_button_witness :
  button_disabled (cells {| cells := blank_state; lang_prop := zh; in_flight := [] |}) = false /\
  click {| cells := blank_state; lang_prop := zh; in_flight := [] |}
    = {| cells := blank_state; lang_prop := zh; in_flight := [] |}.
Proof.
  apply (@blank_input_enables_idle_button
           {| cells := blank_state; lang_prop := zh; in_flight := [] |}).
  - reflexivity.
  - discriminate.
  - reflexivity.
Defined.

Lemma t_error_truthy (lang : Lang) : string_truthy (t_error lang) = true.
Proof. destruct lang; reflexivity. Qed.

(** X8: an execution of [handlePlan] that has started a request ends
    with [loading] off, the input untouched, and exactly one of the plan
    and the error set: the plan, to the value the request was settled
    with, when that value is truthy; the error, to [t.error], when the
    request was rejected or settled with a falsy value such as [null],
    [false], [0] or the empty string. *)
Theorem completed_request_sets_plan_or_error
        (lang : Lang) (settled : Completion JSValue) (s : State) :
  has_visible_text (input s) = true ->
  loading (handlePlan lang settled s) = false /\
  input (handlePlan lang settled s) = input s /\
  ((exists v,
       settled = Normal v /\ truthy v = true /\
       plan (handlePlan lang settled s) = v /\
       error (handlePlan lang settled s) = None /\
       shows_plan (handlePlan lang settled s) = true /\
       shows_error (handlePlan lang settled s) = false) \/
   ((forall v, settled = Normal v -> truthy v = false) /\
    plan (handlePlan lang settled s) = JNull /\
    error (handlePlan lang settled s) = Some (t_error lang) /\
    shows_plan (handlePlan lang settled s) = false /\
    shows_error (handlePlan lang settled s) = true)).
Proof.
  intros Hv. unfold handlePlan. rewrite handlePlan_begin_by_text, Hv.
  unfold handlePlan_resume, shows_plan, shows_error.
  destruct settled as [v | e]; [destruct (truthy v) eqn:Ht|]; simpl.
  - split; [reflexivity|]. split; [reflexivity|]. left. exists v.
    repeat split; auto.
  - split; [reflexivity|]. split; [reflexivity|]. right.
    rewrite t_error_truthy. repeat split. intros v' H. inversion H; subst. exact Ht.
  - split; [reflexivity|]. split; [reflexivity|]. right.
    rewrite t_error_truthy. repeat split. intros v' H. discriminate.
Qed.

Lemma completed_request_sets_plan_or_error_witness :
  loading (handlePlan en (Normal (JBool false)) (cells typed)) = false /\
  input (handlePlan en (Normal (JBool false)) (cells typed)) = input (cells typed) /\
  ((exists v,
       Normal (JBool false) = Normal v /\ truthy v = true /\
       plan (handlePlan en (Normal (JBool false)) (cells typed)) = v /\
       error (handlePlan en (Normal (JBool false)) (cells typed)) = None /\
       shows_plan (handlePlan en (Normal (JBool false)) (cells typed)) = true /\
       shows_error (handlePlan en (Normal (JBool false)) (cells typed)) = false) \/
   ((forall v, Normal (JBool false) = Normal v -> truthy v = false) /\
    plan (handlePlan en (Normal (JBool false)) (cells typed)) = JNull /\
    error (handlePlan en (Normal (JBool false)) (cells typed)) = Some (t_error en) /\
    shows_plan (handlePlan en (Normal (JBool false)) (cells typed)) = false /\
    shows_error (handlePlan en (Normal (JBool false)) (cells typed)) = true)).
Proof.
  apply (@completed_request_sets_plan_or_error en (Normal (JBool false)) (cells typed)).
  reflexivity.
Defined.

(** X9: in every state the component can be in, clicks before a render
    included, [loading] is on only while a request is in flight: once
    nothing is in flight [loading] is off, and the next render gives a
    button that is enabled exactly when the input is not empty.  When
    every click meets a button rendered with the [loading] of now,
    [loading] is on exactly when a request is in flight, and a render
    gives an enabled button exactly when nothing is in flight and the
    input is not empty. *)
Theorem loading_only_while_request_in_flight (m : Mounted) :
  reachable m ->
  (loading (cells (now m)) = true -> in_flight (now m) <> []) /\
  (in_flight (now m) = [] ->
   forall l,
     button_disabled (shown (rendered l m)) = false <-> input (cells (now m)) <> []) /\
  (reachable_in_tasks m ->
   (loading (cells (now m)) = true <-> in_flight (now m) <> []) /\
   (forall l,
       button_disabled (shown (rendered l m)) = false <->
       in_flight (now m) = [] /\ input (cells (now m)) <> [])).
Proof.
  intros Hreach.
  assert (Hbutton : forall l,
             loading (cells (now m)) = false ->
             (button_disabled (shown (rendered l m)) = false <->
              input (cells (now m)) <> [])).
  { intros l Hl. unfold button_disabled. simpl. rewrite Hl. simpl.
    destruct (input (cells (now m))); simpl; split;
      try discriminate; try reflexivity; congruence. }
  split; [|split].
  - intros Hl Hn. rewrite (idle_is_not_loading Hreach Hn) in Hl. discriminate.
  - intros Hn l. apply Hbutton. exact (idle_is_not_loading Hreach Hn).
  - intros Htasks. destruct (in_tasks_invariant Htasks) as [Hinv _].
    unfold component_invariant in Hinv.
    destruct (in_flight (now m)) as [|r [|r' rest]]; [| |contradiction].
    + destruct Hinv as [Hl _]. split.
      * rewrite Hl. split; [discriminate | congruence].
      * intros l. split.
        -- intros H. split; [reflexivity|]. apply (Hbutton l Hl). exact H.
        -- intros [_ H]. apply (Hbutton l Hl). exact H.
    + destruct Hinv as (Hl & _). split.
      * rewrite Hl. split; [discriminate | reflexivity].
      * intros l. unfold button_disabled. simpl. rewrite Hl. simpl.
        split; [discriminate | intros [H _]; discriminate].
Qed.

Lemma loading_only_while_request_in_flight_witness :
  (loading (cells (now waiting_mounted)) = true -> in_flight (now waiting_mounted) <> []) /\
  (in_flight (now waiting_mounted) = [] ->
   forall l,
     button_disabled (shown (rendered l waiting_mounted)) = false <->
     input (cells (now waiting_mounted)) <> []) /\
  (reachable_in_tasks waiting_mounted ->
   (loading (cells (now waiting_mounted)) = true <-> in_flight (now waiting_mounted) <> []) /\
   (forall l,
       button_disabled (shown (rendered l waiting_mounted)) = false <->
       in_flight (now waiting_mounted) = [] /\ input (cells (now waiting_mounted)) <> [])).
Proof.
  apply (@loading_only_while_request_in_flight waiting_mounted).
  apply in_tasks_reachable. exact waiting_mounted_in_tasks.
Defined.

End HandlePlanFacts.

(** ** [handlePlan] and [generateExecutionPlan] together *)

Section SessionFacts.
Import PlannerTool PlannerSession.

Lemma truthy_not_null (v : JSValue) : truthy v = true -> is_null v = false.
Proof. destruct v; simpl; congruence. Qed.


End SessionFacts.

(** ** What the component returns *)

Section ViewFacts.
Import PlannerTool PlannerSession PlannerView.

Lemma step_card_value_iff (texts : Texts) (step : JSValue) (idx : nat) :
  (exists card, step_card texts step idx = Value card) <-> step <> JNull.
Proof.
  destruct step; simpl; split;
    try (intros _; discriminate); try (intros _; eexists; reflexivity).
  - intros (card & H). discriminate.
  - congruence.
Qed.

Lemma map_cards_value_iff (texts : Texts) (elems : list JSValue) :
  forall idx,
    (exists cards, map_cards texts elems idx = Value cards) <->
    Forall (fun e => e <> JNull) elems.
Proof.
  induction elems as [|step rest IH]; intros idx; simpl.
  - split; [constructor | intros _; eexists; reflexivity].
  - split.
    + intros (cards & H).
      destruct (step_card texts step idx) as [card|] eqn:Es; [|discriminate].
      destruct (map_cards texts rest (S idx)) as [cards'|] eqn:Er; [|discriminate].
      constructor.
      * apply (step_card_value_iff texts step idx). eauto.
      * apply (IH (S idx)). eauto.
    + intros H. inversion H as [|? ? Hs Hr]; subst.
      apply (step_card_value_iff texts step idx) in Hs as (card & ->).
      apply (IH (S idx)) in Hr as (cards & ->). eauto.
Qed.

Lemma map_cards_numbers (texts : Texts) (elems : list JSValue) :
  forall idx cards,
    map_cards texts elems idx = Value cards ->
    map card_key cards = seq idx (List.length elems) /\
    map card_number cards = seq (S idx) (List.length elems).
Proof.
  induction elems as [|step rest IH]; intros idx cards H; simpl in H.
  - inversion H; subst. split; reflexivity.
  - destruct (step_card texts step idx) as [card|] eqn:Es; [|discriminate].
    destruct (map_cards texts rest (S idx)) as [cards'|] eqn:Er; [|discriminate].
    inversion H; subst. apply IH in Er as [Hk Hn].
    assert (card_key card = idx /\ card_number card = S idx) as [Ek En].
    { destruct step; simpl in Es; inversion Es; subst; simpl; split;
        try reflexivity; lia. }
    simpl. rewrite Hk, Hn, Ek, En. split; reflexivity.
Qed.

Lemma plan_cards_value_iff (texts : Texts) (v : JSValue) :
  (exists cards, plan_cards texts v = Value cards) <-> steps_can_be_mapped v.
Proof.
  unfold plan_cards, steps_can_be_mapped.
  destruct (member "steps" v) as [[| | | |elems|]|]; split;
    try (intros (cards & H); discriminate);
    try (intros (elems' & H & _); discriminate).
  - intros H. exists elems. split; [reflexivity|].
    apply (map_cards_value_iff texts elems 0). exact H.
  - intros (elems' & H & Hall). inversion H; subst.
    apply (map_cards_value_iff texts elems' 0). exact Hall.
Qed.

(** X11: [plan.steps.map(...)] gives the cards exactly when [plan.steps]
    is an array with no [null] in it, and throws a [TypeError] for every
    other value; the cards it gives are as many as the elements, with the
    keys 0, 1, ... and the numbers 1, 2, ... in the order of the array. *)
Theorem cards_iff_steps_array (texts : Texts) (v : JSValue) :
  ((exists cards, plan_cards texts v = Value cards) <-> steps_can_be_mapped v) /\
  (plan_cards texts v = ThrowsTypeError <-> ~ steps_can_be_mapped v) /\
  (forall cards,
      plan_cards texts v = Value cards ->
      exists elems,
        member "steps" v = Some (JArray elems) /\
        List.length cards = List.length elems /\
        map card_key cards = seq 0 (List.length elems) /\
        map card_number cards = seq 1 (List.length elems)).
Proof.
  pose proof (plan_cards_value_iff texts v) as Hiff.
  split; [exact Hiff|]. split.
  - split.
    + intros H Hm. apply Hiff in Hm as (cards & Hc). congruence.
    + intros Hm. destruct (plan_cards texts v) as [cards|] eqn:E; [|reflexivity].
      exfalso. apply Hm, Hiff. eauto.
  - intros cards H. unfold plan_cards in H.
    destruct (member "steps" v) as [[| | | |elems|]|]; try discriminate.
    exists elems. apply map_cards_numbers in H as [Hk Hn].
    split; [reflexivity|]. split; [|split; assumption].
    rewrite <- (length_map card_key), Hk. apply length_seq.
Qed.

Lemma get_string_member (k : string) (o : list (JSString * JSValue)) (x : JSString) :
  get_string k o = Some x -> member k (JObject o) = Some (JString x).
Proof.
  unfold get_string, member.
  destruct (get_prop (js k) o) as [[| | |x'| |]|]; try discriminate.
  intros H. inversion H; subst. reflexivity.
Qed.

Lemma step_card_of_step (texts : Texts) (so : JSValue) (st : PlanStep) (idx : nat) :
  as_step so = Some st -> step_card texts so idx = Value (card_of_step texts idx st).
Proof.
  intros H. apply as_step_spec in H as (o & -> & Ha & Hb & Hc).
  unfold step_card, card_of_step.
  rewrite (get_string_member _ _ Ha), (get_string_member _ _ Hb),
    (get_string_member _ _ Hc).
  reflexivity.
Qed.

Lemma map_cards_of_steps (texts : Texts) (sos : list JSValue) :
  forall sts idx,
    as_steps sos = Some sts ->
    map_cards texts sos idx = Value (cards_of_steps texts idx sts).
Proof.
  induction sos as [|so sos IH]; intros sts idx H; simpl in H.
  - inversion H; subst. reflexivity.
  - destruct (as_step so) as [st|] eqn:Es; [|discriminate].
    destruct (as_steps sos) as [sts'|] eqn:Er; [|discriminate].
    inversion H; subst. simpl.
    rewrite (step_card_of_step texts _ idx Es), (IH sts' (S idx) eq_refl).
    reflexivity.
Qed.

Lemma as_plan_truthy (v : JSValue) (pl : PlannerResponse) :
  as_plan v = Some pl -> truthy v = true.
Proof. destruct v; simpl; try discriminate. reflexivity. Qed.

(** X12: a value that is read as a plan is rendered as that plan: the
    component returns a view, with the heading [t.blueprint] and one card
    for each step, in the order of the steps, numbered from 1, with the
    title, the prompt strategy and the risk of the step as they are. *)
Theorem plan_is_rendered_in_order (lang : Lang) (s : State) (pl : PlannerResponse) :
  as_plan (plan s) = Some pl ->
  plan_cards (t lang) (plan s) = Value (cards_of_steps (t lang) 0 (steps pl)) /\
  exists view,
    render lang s = Value view /\
    plan_panel view
      = RightOperand (mkPanel (t_blueprint (t lang))
                              (cards_of_steps (t lang) 0 (steps pl))) /\
    button_disabled_attr view = button_disabled s /\
    textarea_value view = input s.
Proof.
  intros H.
  assert (E : plan_cards (t lang) (plan s)
              = Value (cards_of_steps (t lang) 0 (steps pl))).
  { unfold plan_cards. unfold as_plan in H.
    destruct (plan s) as [| | | | |o]; try discriminate. simpl.
    destruct (get_prop (js "steps") o) as [[| | | |sos|]|]; try discriminate.
    destruct (as_steps sos) as [sts|] eqn:Es; [|discriminate].
    inversion H; subst. simpl. apply map_cards_of_steps. exact Es. }
  split; [exact E|].
  unfold render. rewrite (as_plan_truthy _ H), E.
  eexists. split; [reflexivity|]. simpl. repeat split.
Qed.

Lemma plan_is_rendered_in_order_witness :
  plan_cards (t zh) (plan (cells settled_with_plan))
    = Value (cards_of_steps (t zh) 0 (steps scenarioA_plan)) /\
  exists view,
    render zh (cells settled_with_plan) = Value view /\
    plan_panel view
      = RightOperand (mkPanel (t_blueprint (t zh))
                              (cards_of_steps (t zh) 0 (steps scenarioA_plan))) /\
    button_disabled_attr view = button_disabled (cells settled_with_plan) /\
    textarea_value view = input (cells settled_with_plan).
Proof.
  apply (@plan_is_rendered_in_order zh (cells settled_with_plan) scenarioA_plan).
  reflexivity.
Defined.

(** X13: a value that is not a plan reaches the render and breaks it:
    when the input has visible text, the credential is present and the
    service resolves with valid JSON whose value is truthy but has no
    array of steps without [null], [handlePlan] stores the value as the
    plan and the next render of the component throws a [TypeError]. *)
Theorem unchecked_value_breaks_render
        (lang : Lang) (p : Process) (tr : list Event) (s : State)
        (body : JSString) (v : JSValue) :
  has_visible_text (input s) = true ->
  credential_present p ->
  replies_with p tr (input s) lang (Some body) ->
  JSON.parse body = Some v ->
  truthy v = true ->
  ~ steps_can_be_mapped v ->
  plan (fst (handlePlan_in lang p tr s)) = v /\
  error (fst (handlePlan_in lang p tr s)) = None /\
  forall lang', render lang' (fst (handlePlan_in lang p tr s)) = ThrowsTypeError.
Proof.
  intros Hv Hc Hr Hp Ht Hm.
  unfold handlePlan_in. rewrite handlePlan_begin_by_text, Hv. simpl.
  rewrite (valid_json_is_returned_unchecked_core Hc Hr Hp).
  unfold handlePlan_resume. rewrite Ht. simpl.
  split; [reflexivity|]. split; [reflexivity|].
  intros lang'. unfold render. simpl. rewrite Ht.
  destruct (plan_cards (t lang') v) as [cards|] eqn:E; [|reflexivity].
  exfalso. apply Hm. apply (plan_cards_value_iff (t lang') v). eauto.
Qed.

Lemma unchecked_value_breaks_render_witness :
  plan (fst (handlePlan_in en (mock_body (js "{}")) [] (cells typed))) = JObject [] /\
  error (fst (handlePlan_in en (mock_body (js "{}")) [] (cells typed))) = None /\
  forall lang',
    render lang' (fst (handlePlan_in en (mock_body (js "{}")) [] (cells typed)))
      = ThrowsTypeError.
Proof.
  apply (@unchecked_value_breaks_render
           en (mock_body (js "{}")) [] (cells typed) (js "{}") (JObject [])).
  - reflexivity.
  - exists (js "test-key"). split; [reflexivity | discriminate].
  - reflexivity.
  - reflexivity.
  - reflexivity.
  - intros (elems & H & _). discriminate H.
Defined.

End ViewFacts.

(** ** From the click to the screen *)

Section OutcomeFacts.
Import PlannerTool PlannerSession PlannerView.




End OutcomeFacts.

(** ** The page and the planner it mounts *)

Section AppFacts.
Import App.

Lemma is_toolkit_iff (id : PhaseId) : is_toolkit id = true <-> id = TOOLKIT.
Proof. destruct id; simpl; split; intros H; try reflexivity; discriminate. Qed.

Lemma show_keeps_screen_invariant (s : State) (sc : Screen) :
  screen_invariant sc -> screen_invariant (on_screen (show s (page sc))).
Proof.
  unfold screen_invariant, on_screen, show, planner_for. simpl. intros H.
  destruct (is_toolkit (activePhase s)) eqn:E.
  - apply is_toolkit_iff in E.
    destruct (planner (page sc)) as [c|]; simpl.
    + destruct H as (_ & _ & Hr).
      split; [exact E|]. split; [reflexivity|].
      eapply PlannerTool.reach_step; [exact Hr|].
      exact (PlannerTool.step_render
               {| PlannerTool.shown := planner_shown sc; PlannerTool.now := c |} (lang s)).
    + split; [exact E|]. split; [reflexivity|]. exact (PlannerTool.reach_mount (lang s)).
  - simpl. intros Ht. apply is_toolkit_iff in Ht. congruence.
Qed.

Lemma step_keeps_screen_invariant (sc sc' : Screen) :
  screen_invariant sc -> step sc sc' -> screen_invariant sc'.
Proof.
  intros Hinv Hstep.
  destruct Hstep as [sc | sc id w m | sc sc' a (c & c' & Hp & Hs & Hl & Hpage)].
  - apply show_keeps_screen_invariant. exact Hinv.
  - apply show_keeps_screen_invariant. exact Hinv.
  - unfold screen_invariant in *. rewrite Hp in Hinv. rewrite Hpage. simpl.
    destruct Hinv as (Ha & Hlang & Hr).
    split; [exact Ha|]. split; [congruence|].
    exact (PlannerTool.reach_step Hr Hs).
Qed.

Lemma reachable_screen_invariant (sc : Screen) :
  reachable_screen sc -> screen_invariant sc.
Proof.
  induction 1 as [|sc sc' _ IH Hstep].
  - unfold screen_invariant. simpl. discriminate.
  - eapply step_keeps_screen_invariant; eassumption.
Qed.

Lemma reachable_page_invariant (pg : Page) : reachable pg -> page_invariant pg.
Proof.
  intros (sc & Hsc & <-). apply reachable_screen_invariant in Hsc.
  unfold screen_invariant in Hsc. unfold page_invariant.
  destruct (planner (page sc)) as [c|]; [|exact Hsc].
  destruct Hsc as (Ha & Hl & Hr). split; [exact Ha|]. split; [exact Hl|].
  exists (planner_shown sc). exact Hr.
Qed.

Lemma planner_step_on_screen
      (sc : Screen) (a : PlannerTool.Action) (c : PlannerTool.Component)
      (m' : PlannerTool.Mounted) :
  reachable_screen sc ->
  planner (page sc) = Some c ->
  PlannerTool.step a {| PlannerTool.shown := planner_shown sc; PlannerTool.now := c |} m' ->
  PlannerTool.lang_prop (PlannerTool.now m') = PlannerTool.lang_prop c ->
  reachable_screen {| page := {| cells := cells (page sc);
                                 planner := Some (PlannerTool.now m') |};
                      planner_shown := PlannerTool.shown m' |}.
Proof.
  intros Hsc Hp Hs Hl. apply (reach_step Hsc). apply (@step_planner _ _ a).
  exists c, (PlannerTool.now m'). simpl.
  split; [exact Hp|]. split; [|split; [exact Hl | reflexivity]].
  destruct m'. exact Hs.
Qed.

Lemma waiting_page_reachable : reachable waiting_page.
Proof.
  assert (H0 : reachable_screen (on_screen toolkit_page)).
  { apply (reach_step reach_first). exact (step_phase first_screen TOOLKIT 1280 true). }
  pose proof (@planner_step_on_screen _ (PlannerTool.Change (js "Add a login page"))
                (PlannerTool.mounted en) _ H0 eq_refl
                (PlannerTool.step_change _ (js "Add a login page")) eq_refl) as H1.
  pose proof (@planner_step_on_screen _ (PlannerTool.Render en) _ _ H1 eq_refl
                (PlannerTool.step_render _ en) eq_refl) as H2.
  assert (Hclick : PlannerTool.step PlannerTool.Click typed_mounted
                     (PlannerTool.clicked typed_mounted)).
  { apply PlannerTool.step_click. reflexivity. }
  pose proof (@planner_step_on_screen _ PlannerTool.Click _ _ H2 eq_refl
                Hclick eq_refl) as H3.
  eexists. split; [exact H3 | reflexivity].
Qed.

(** X14: at every moment of the page, a planner is mounted exactly when
    the toolkit is the active phase, and the planner that is mounted has
    the language of the page and is in a state a mounted [PlannerTool] can
    be in, whatever was toggled, navigated, typed, clicked, rendered or
    settled before; in particular its [loading] is on only while one of
    its requests is in flight. *)
Theorem mounted_planner_follows_page (pg : Page) :
  reachable pg ->
  (planner pg <> None <-> activePhase (cells pg) = TOOLKIT) /\
  (forall c,
      planner pg = Some c ->
      PlannerTool.lang_prop c = lang (cells pg) /\
      (exists seen,
          PlannerTool.reachable {| PlannerTool.shown := seen; PlannerTool.now := c |}) /\
      (PlannerTool.loading (PlannerTool.cells c) = true ->
       PlannerTool.in_flight c <> [])).
Proof.
  intros Hreach. pose proof (reachable_page_invariant Hreach) as Hinv.
  unfold page_invariant in Hinv. split.
  - destruct (planner pg) as [c|].
    + split; [intros _; tauto | discriminate].
    + split; [congruence | intros H; contradiction].
  - intros c Hc. rewrite Hc in Hinv. destruct Hinv as (_ & Hl & seen & Hr).
    split; [exact Hl|]. split; [exists seen; exact Hr|].
    intros Hload Hn.
    pose proof (idle_is_not_loading Hr Hn) as Hidle. simpl in Hidle. congruence.
Qed.

Lemma mounted_planner_follows_page_witness :
  (planner waiting_page <> None <-> activePhase (cells waiting_page) = TOOLKIT) /\
  (forall c,
      planner waiting_page = Some c ->
      PlannerTool.lang_prop c = lang (cells waiting_page) /\
      (exists seen,
          PlannerTool.reachable {| PlannerTool.shown := seen; PlannerTool.now := c |}) /\
      (PlannerTool.loading (PlannerTool.cells c) = true ->
       PlannerTool.in_flight c <> [])).
Proof.
  apply (@mounted_planner_follows_page waiting_page).
  exact waiting_page_reachable.
Defined.

(** X15: leaving the toolkit unmounts the planner, and coming back mounts
    a new one: whatever the planner held before (a typed task, a plan, an
    error, a request in flight), after a visit to another phase it has an
    empty input, no plan, no error, nothing in flight and a disabled
    button, and the language of the page is as it was. *)
Theorem leaving_toolkit_resets_planner
        (pg : Page) (id : PhaseId)
        (width1 width2 : Z) (mounted1 mounted2 : bool) :
  id <> TOOLKIT ->
  planner (navigate id width1 mounted1 pg) = None /\
  planner (navigate TOOLKIT width2 mounted2 (navigate id width1 mounted1 pg))
    = Some (PlannerTool.mounted (lang (cells pg))) /\
  lang (cells (navigate TOOLKIT width2 mounted2 (navigate id width1 mounted1 pg)))
    = lang (cells pg) /\
  PlannerTool.button_disabled
    (PlannerTool.cells (PlannerTool.mounted (lang (cells pg)))) = true.
Proof.
  intros Hid.
  assert (E : is_toolkit id = false).
  { destruct (is_toolkit id) eqn:E; [|reflexivity].
    apply is_toolkit_iff in E. contradiction. }
  unfold navigate, show, planner_for, handlePhaseChange. simpl. rewrite E. simpl.
  repeat split.
Qed.

Lemma leaving_toolkit_resets_planner_witness :
  planner (navigate REVIEW 800 true waiting_page) = None /\
  planner (navigate TOOLKIT 800 true (navigate REVIEW 800 true waiting_page))
    = Some (PlannerTool.mounted (lang (cells waiting_page))) /\
  lang (cells (navigate TOOLKIT 800 true (navigate REVIEW 800 true waiting_page)))
    = lang (cells waiting_page) /\
  PlannerTool.button_disabled
    (PlannerTool.cells (PlannerTool.mounted (lang (cells waiting_page)))) = true.
Proof.
  apply (@leaving_toolkit_resets_planner waiting_page REVIEW 800 800 true true).
  discriminate.
Defined.

Lemma toggle_toggle (l : Lang) : toggle (toggle l) = l.
Proof. destruct l; reflexivity. Qed.

(** X16: the language button changes the language and nothing else: the
    active phase stays, a mounted planner keeps its input, plan, error,
    loading flag and requests in flight and takes the new language, and
    pressing the button twice gives back the page as it was. *)
Theorem language_toggle_keeps_planner (pg : Page) :
  reachable pg ->
  activePhase (cells (toggle_language pg)) = activePhase (cells pg) /\
  lang (cells (toggle_language pg)) = toggle (lang (cells pg)) /\
  planner (toggle_language pg)
    = option_map (with_lang (toggle (lang (cells pg)))) (planner pg) /\
  toggle_language (toggle_language pg) = pg.
Proof.
  intros Hreach. pose proof (reachable_page_invariant Hreach) as Hinv.
  unfold page_invariant in Hinv.
  unfold toggle_language, show, planner_for. simpl.
  destruct pg as [[phase l] [c|]]; simpl in *.
  - destruct Hinv as (-> & Hl & _). simpl.
    repeat split. rewrite toggle_toggle.
    destruct c as [cs lp fl]. simpl in Hl. subst lp. reflexivity.
  - assert (E : is_toolkit phase = false).
    { destruct (is_toolkit phase) eqn:E; [|reflexivity].
      apply is_toolkit_iff in E. contradiction. }
    rewrite !E. simpl. rewrite ?E. repeat split. rewrite toggle_toggle. reflexivity.
Qed.

Lemma language_toggle_keeps_planner_witness :
  activePhase (cells (toggle_language waiting_page)) = activePhase (cells waiting_page) /\
  lang (cells (toggle_language waiting_page)) = toggle (lang (cells waiting_page)) /\
  planner (toggle_language waiting_page)
    = option_map (with_lang (toggle (lang (cells waiting_page)))) (planner waiting_page) /\
  toggle_language (toggle_language waiting_page) = waiting_page.
Proof.
  apply (@language_toggle_keeps_planner waiting_page).
  exact waiting_page_reachable.
Defined.

End AppFacts.

(** ** The view when no plan is stored *)

Section IdleViewFacts.
Import PlannerTool PlannerView.

Lemma error_is_a_message (m : Mounted) :
  reachable m ->
  error (cells (now m)) = None \/ exists l, error (cells (now m)) = Some (t_error l).
Proof.
  induction 1 as [l | a m m' _ IH Hstep].
  - left. reflexivity.
  - destruct Hstep as [m l | m v | m Hb | m before after r settled Hf]; simpl.
    + exact IH.
    + exact IH.
    + unfold click_from, handlePlan_begin_from.
      destruct (negb (string_truthy (trim (input (shown m))))); simpl; auto.
    + unfold handlePlan_resume.
      destruct settled as [v | e]; [destruct (truthy v)|]; simpl; eauto.
Qed.

(** X17: in every state the component can be in with no plan stored
    (before the first request, while requests are in flight, after a
    failure), clicks before a render included, the next render returns a
    view and does not throw; the view has no plan panel, its button shows
    the spinner only while a request is in flight and the label once none
    is, and its error box is empty or holds the message [t.error] of one of
    the two languages, the only text [handlePlan] ever stores as an
    error. *)
Theorem view_without_plan (m : Mounted) (l : Lang) :
  reachable m ->
  plan (cells (now m)) = JNull ->
  exists view,
    render l (shown (rendered l m)) = Value view /\
    plan_panel view = LeftOperand JNull /\
    (button_content view = Spinner -> in_flight (now m) <> []) /\
    (in_flight (now m) = [] -> button_content view = Label (t_button (t l))) /\
    button_disabled_attr view = button_disabled (cells (now m)) /\
    (error_box view = LeftOperand None \/
     exists l', error_box view = RightOperand (t_error l')).
Proof.
  intros Hreach Hp.
  pose proof (idle_is_not_loading Hreach) as Hidle.
  pose proof (error_is_a_message Hreach) as He.
  unfold render. simpl. rewrite Hp. simpl.
  eexists. split; [reflexivity|]. simpl.
  split; [reflexivity|]. split; [|split; [|split; [reflexivity|]]].
  - intros Hs Hn. rewrite (Hidle Hn) in Hs. discriminate.
  - intros Hn. rewrite (Hidle Hn). reflexivity.
  - destruct He as [-> | (l' & ->)]; [left; reflexivity|].
    right. exists l'. rewrite t_error_truthy. reflexivity.
Qed.

Lemma view_without_plan_witness :
  exists view,
    render zh (shown (rendered zh (clicked typed_mounted))) = Value view /\
    plan_panel view = LeftOperand JNull /\
    (button_content view = Spinner -> in_flight (now (clicked typed_mounted)) <> []) /\
    (in_flight (now (clicked typed_mounted)) = [] ->
     button_content view = Label (t_button (t zh))) /\
    button_disabled_attr view = button_disabled (cells (now (clicked typed_mounted))) /\
    (error_box view = LeftOperand None \/
     exists l', error_box view = RightOperand (t_error l')).
Proof.
  apply (@view_without_plan (clicked typed_mounted) zh).
  - apply (@reach_step Click typed_mounted (clicked typed_mounted)).
    + apply in_tasks_reachable. exact typed_mounted_in_tasks.
    + apply step_click. reflexivity.
  - reflexivity.
Defined.

End IdleViewFacts.
